(** * dummyvfs: a counter file system

    Shallow embedding of [src/dummyvfs.c] (a libfs based Linux file system
    exporting two counter files) together with the properties of its read
    and write handlers and of its mount routine.

    Conventions.
    - C integers are values of [Z]; every conversion to a fixed width is
      written out with the functions of module [CInt].
    - A [char] buffer is a [list ascii].
    - The two file-scope [atomic_t] objects live in the record [atomics];
      a pointer to one of them is a value of [atomic_ptr].
    - An [loff_t *offset] in-out parameter is passed in and returned.
    - A handler returns [None] where the C code leaves defined behaviour
      (NULL dereference, access outside an object). *)

From Stdlib Require Import ZArith Ascii String List Lia Bool.
Import ListNotations.
Local Open Scope Z_scope.

(** ** Machine integers *)

Module CInt.

(** Two's complement reading of the low [bits] bits of [z]. *)
Definition signed (bits z : Z) : Z :=
  (z + 2 ^ (bits - 1)) mod 2 ^ bits - 2 ^ (bits - 1).

(** Conversion to [int], to [long] / [loff_t] / [ssize_t], to [size_t]. *)
Definition to_int (z : Z) : Z := signed 32 z.
Definition to_long (z : Z) : Z := signed 64 z.
Definition to_size_t (z : Z) : Z := z mod 2 ^ 64.

Definition INT_MIN : Z := - 2 ^ 31.
Definition INT_MAX : Z := 2 ^ 31 - 1.

Definition is_int (z : Z) : Prop := INT_MIN <= z <= INT_MAX.
Definition is_size_t (z : Z) : Prop := 0 <= z < 2 ^ 64.

End CInt.
Import CInt.

(** ** Constants of the source *)

Definition LFS_MAGIC : Z := 0x11223344.
Definition TMPSIZE : Z := 20.

(** Error numbers of [errno-base.h], which the handlers return negated. *)
Definition ENOMEM : Z := 12.
Definition EFAULT : Z := 14.
Definition EINVAL : Z := 22.

(** ** Kernel helpers called by the handlers

    These functions belong to the host kernel, not to [dummyvfs.c]; each is
    given here by what it does for the arguments the handlers pass. *)

Module Klib.

Definition NUL : ascii := "000"%char.
Definition NL : ascii := "010"%char.
Definition MINUS : ascii := "-"%char.

Definition isdigit (c : ascii) : bool :=
  let n := N_of_ascii c in ((48 <=? n) && (n <=? 57))%N.
Definition digit_val (c : ascii) : Z := Z.of_N (N_of_ascii c) - 48.
Definition digit_char (d : Z) : ascii := ascii_of_N (Z.to_N (48 + d)).

(** Modelled from the spec: the spec asks for the decimal text of a signed
    integer; this is the conversion [%d] of the kernel's [vsnprintf]
    ([lib/vsprintf.c], not part of [src/]).  Digits are produced from the
    least significant one; ten of them cover every magnitude of an [int]. *)
Fixpoint put_dec (fuel : nat) (n : Z) (acc : list ascii) : list ascii :=
  match fuel with
  | O => acc
  | S fuel' =>
      let acc' := digit_char (n mod 10) :: acc in
      if n / 10 =? 0 then acc' else put_dec fuel' (n / 10) acc'
  end.

Definition number (v : Z) : list ascii :=
  if v <? 0 then MINUS :: put_dec 10 (- v) [] else put_dec 10 v [].

(** Modelled from the spec: [snprintf(tmp, size, "%d\n", v)], the decimal
    text followed by a newline.  The result is the length of the whole text
    and the initialised part of [tmp]: at most [size - 1] characters and the
    terminating NUL. *)
Definition snprintf (size : Z) (v : Z) : Z * list ascii :=
  let text := number v ++ [NL] in
  (Z.of_nat (length text), firstn (Z.to_nat (size - 1)) text ++ [NUL]).

(** Modelled from the spec: base 10 conversion that stops at the first
    character that is not a digit ([_parse_integer] of [lib/kstrtox.c], not
    part of [src/]); the accumulator is an [unsigned long long]. *)
Fixpoint parse_integer (s : list ascii) (res : Z) : Z :=
  match s with
  | c :: s' =>
      if isdigit c
      then parse_integer s' (to_size_t (res * 10 + digit_val c))
      else res
  | [] => res
  end.

Definition simple_strtoul (cp : list ascii) : Z := parse_integer cp 0.

(** Modelled from the spec: [simple_strtol(cp, NULL, 10)]; a leading minus
    sign negates the unsigned conversion of the rest, and the result is a
    [long]. *)
Definition simple_strtol (cp : list ascii) : Z :=
  match cp with
  | c :: cp' =>
      if Ascii.eqb c MINUS
      then to_long (to_size_t (- simple_strtoul cp'))
      else to_long (simple_strtoul cp)
  | [] => 0
  end.

Definition memset (c : ascii) (n : Z) : list ascii := repeat c (Z.to_nat n).

(** Modelled from the spec: copies between the handler and the caller can
    fail.  User memory at a pointer is the list of bytes accessible from
    it; [copy_to_user] and [copy_from_user] move as many of the [n] bytes as
    are accessible and return the number of bytes NOT copied (0 on
    success), together with the destination. *)
Definition copy_to_user (dst src : list ascii) (n : Z) : Z * list ascii :=
  let k := Z.min n (Z.of_nat (length dst)) in
  (n - k, firstn (Z.to_nat k) src ++ skipn (Z.to_nat k) dst).

Definition copy_from_user (dst src : list ascii) (n : Z) : Z * list ascii :=
  let k := Z.min n (Z.of_nat (length src)) in
  (n - k,
   firstn (Z.to_nat k) src ++ memset NUL (n - k) ++ skipn (Z.to_nat n) dst).

(** The [n] bytes at [base + off], when they lie inside the object. *)
Definition bytes_at (base : list ascii) (off n : Z) : option (list ascii) :=
  if (0 <=? off) && (0 <=? n) && (off + n <=? Z.of_nat (length base))
  then Some (firstn (Z.to_nat n) (skipn (Z.to_nat off) base))
  else None.

End Klib.
Import Klib.

(** ** The counters

    [static atomic_t counter, subcounter;] *)

Inductive atomic_ptr : Type :=
| addr_counter    (* &counter *)
| addr_subcounter (* &subcounter *).

Record atomics : Type := Atomics { counter_val : Z; subcounter_val : Z }.

Definition atomic_ptr_eqb (p q : atomic_ptr) : bool :=
  match p, q with
  | addr_counter, addr_counter | addr_subcounter, addr_subcounter => true
  | _, _ => false
  end.

Definition atomic_read (m : atomics) (p : atomic_ptr) : Z :=
  match p with
  | addr_counter => counter_val m
  | addr_subcounter => subcounter_val m
  end.

Definition atomic_set (m : atomics) (p : atomic_ptr) (i : Z) : atomics :=
  match p with
  | addr_counter => {| counter_val := i; subcounter_val := subcounter_val m |}
  | addr_subcounter => {| counter_val := counter_val m; subcounter_val := i |}
  end.

Definition atomic_inc (m : atomics) (p : atomic_ptr) : atomics :=
  atomic_set m p (to_int (atomic_read m p + 1)).

(** Every cell holds an [int]. *)
Definition atomics_ok (m : atomics) : Prop :=
  forall p, is_int (atomic_read m p).

(** ** Open files and the handlers *)

Record file : Type := File { private_data : option atomic_ptr }.

(** What a handler leaves behind: its return value, the caller's buffer, the
    value of [*offset] and the counters. *)
Record rw_result : Type := RW {
  ret : Z;
  ubuf : list ascii;
  pos : Z;
  mem : atomics
}.

(** The bytes a successful read handed to the caller. *)
Definition served (r : rw_result) : list ascii :=
  firstn (Z.to_nat (ret r)) (ubuf r).

(** [dfs_read_file(fp, buf, count, offset)] *)
Definition dfs_read_file (fp : file) (buf : list ascii) (count : Z)
    (offset : Z) (m : atomics) : option rw_result :=
  match private_data fp with
  | None => None
  | Some counter =>
      (* Encode the value and figure out how much of it we can pass back *)
      let v := atomic_read m counter in
      let '(v, m) :=
        if offset >? 0
        then (to_int (v - 1), m)  (* The value returned when offset was zero *)
        else (v, atomic_inc m counter) in
      let '(len, tmp) := snprintf TMPSIZE v in
      if offset >? len then Some (RW 0 buf offset m)
      else
        let count :=
          if count >? to_size_t (len - offset)
          then to_size_t (len - offset) else count in
        (* copy it back, increment the offset, and we are done *)
        match bytes_at tmp offset count with
        | None => None
        | Some src =>
            let '(uncopied, buf) := copy_to_user buf src count in
            if negb (uncopied =? 0) then Some (RW (- EFAULT) buf offset m)
            else Some (RW count buf (to_long (offset + count)) m)
        end
  end.

(** [dfs_write_file(fp, buf, count, offset)] *)
Definition dfs_write_file (fp : file) (buf : list ascii) (count : Z)
    (offset : Z) (m : atomics) : option rw_result :=
  let counter := private_data fp in
  (* only write from the beginning *)
  if negb (offset =? 0) then Some (RW (- EINVAL) buf offset m)
  (* read the value from the user *)
  else if count >=? TMPSIZE then Some (RW (- EINVAL) buf offset m)
  else
    let tmp := memset NUL TMPSIZE in
    let '(uncopied, tmp) := copy_from_user tmp buf count in
    if negb (uncopied =? 0) then Some (RW (- EFAULT) buf offset m)
    else
      (* store in the counter and we are done *)
      match counter with
      | None => None
      | Some counter =>
          Some (RW count buf offset
                  (atomic_set m counter (to_int (simple_strtol tmp))))
      end.

(** ** Sequences of requests

    The calls the VFS makes on open files: each carries the file, the
    caller's buffer, the byte count and the file position. *)

Inductive request : Type :=
| Read (fp : file) (buf : list ascii) (count offset : Z)
| Write (fp : file) (buf : list ascii) (count offset : Z).

Definition handle (q : request) : file :=
  match q with Read fp _ _ _ | Write fp _ _ _ => fp end.

Definition serve (q : request) (m : atomics) : option rw_result :=
  match q with
  | Read fp buf count offset => dfs_read_file fp buf count offset m
  | Write fp buf count offset => dfs_write_file fp buf count offset m
  end.

Fixpoint serve_all (qs : list request) (m : atomics) : option atomics :=
  match qs with
  | [] => Some m
  | q :: qs' =>
      match serve q m with
      | Some r => serve_all qs' (mem r)
      | None => None
      end
  end.

(** What the VFS guarantees of a call: the file was opened on a counter
    file, and neither the position nor the count is negative. *)
Definition well_formed (q : request) : Prop :=
  private_data (handle q) <> None /\
  match q with
  | Read _ _ count offset | Write _ _ count offset => 0 <= offset /\ 0 <= count
  end.

Definition str (s : string) : list ascii := list_ascii_of_string s.

(** ** Decimal text and its value *)

(** The text a read works on: the decimal digits and a newline. *)
Definition serialize (v : Z) : list ascii := number v ++ [NL].

Definition serialized_length (v : Z) : Z := Z.of_nat (length (serialize v)).

(** Value of a run of digits read after the accumulator [a]. *)
Definition dec_val (a : Z) (l : list ascii) : Z :=
  fold_left (fun a c => a * 10 + digit_val c) l a.

(** The longest prefix made of digits. *)
Fixpoint take_digits (s : list ascii) : list ascii :=
  match s with
  | c :: s' => if isdigit c then c :: take_digits s' else []
  | [] => []
  end.

(** The conversion in the spec's words: an optional minus sign, then the
    digits up to the first character that is not one; nothing else of the
    input is looked at. *)
Definition lenient_decimal (s : list ascii) : Z :=
  match s with
  | c :: s' =>
      if Ascii.eqb c MINUS then - dec_val 0 (take_digits s')
      else dec_val 0 (take_digits s)
  | [] => 0
  end.

(** ** What a read serialises *)

(** The value a read serialises and the counters it leaves. *)
Definition logical_value (offset v : Z) : Z :=
  if offset >? 0 then to_int (v - 1) else v.

Definition after_read (offset : Z) (m : atomics) (p : atomic_ptr) : atomics :=
  if offset >? 0 then m else atomic_inc m p.

(** ** File modes ([stat.h]) *)

Definition octal (digits : list Z) : Z :=
  fold_left (fun a d => a * 8 + d) digits 0.

Definition S_IFMT : Z := octal [1; 7; 0; 0; 0; 0].
Definition S_IFREG : Z := octal [1; 0; 0; 0; 0; 0].
Definition S_IFDIR : Z := octal [4; 0; 0; 0; 0].

Definition S_ISREG (mode : Z) : bool := Z.land mode S_IFMT =? S_IFREG.
Definition S_ISDIR (mode : Z) : bool := Z.land mode S_IFMT =? S_IFDIR.
Definition permission_bits (mode : Z) : Z := Z.land mode (octal [7; 7; 7; 7]).

(** Block size handed to the superblock: the kernel's [VMACACHE_SIZE],
    [1U << 2]; it is not defined in [src/] and nothing below depends on its
    value. *)
Definition VMACACHE_SIZE : Z := 4.

(** ** The objects of a mount *)

Inductive file_operations : Type :=
| simple_dir_operations
| dummyfs_file_ops (* .open = dfs_open, .read = dfs_read_file,
                      .write = dfs_write_file *).

Inductive inode_operations : Type :=
| simple_dir_inode_operations
| dummyfs_inode_ops.

Inductive super_operations : Type :=
| dummyfs_ops.

(** Pointers to inodes and to dentries are indices into the tables of the
    kernel state; [None] is the NULL pointer.  Of an inode the fields that
    [dummyvfs.c] sets are kept, except the three timestamps and the owner. *)
Record inode : Type := Inode {
  i_mode : Z;
  i_fop : option file_operations;
  i_op : option inode_operations;
  i_ino : Z;
  i_nlink : Z;
  i_private : option atomic_ptr
}.

Record dentry : Type := Dentry {
  d_name : string;
  d_parent : option nat;
  d_inode : option nat
}.

Record super_block : Type := SuperBlock {
  s_blocksize : Z;
  s_blocksize_bits : Z;
  s_magic : Z;
  s_op : option super_operations;
  s_root : option nat
}.

(** The state a mount works on.  [outcomes] lists, in order, whether the
    allocations still to come succeed; once the list is used up every
    allocation succeeds.  A slot of [inodes] or [dentries] holds [None] once
    the object has been freed. *)
Record kernel : Type := Kernel {
  outcomes : list bool;
  last_ino : Z;
  inodes : list (option inode);
  dentries : list (option dentry);
  sb : super_block;
  atoms : atomics
}.

Definition set_outcomes (k : kernel) (l : list bool) : kernel :=
  Kernel l (last_ino k) (inodes k) (dentries k) (sb k) (atoms k).
Definition set_last_ino (k : kernel) (n : Z) : kernel :=
  Kernel (outcomes k) n (inodes k) (dentries k) (sb k) (atoms k).
Definition set_inodes (k : kernel) (l : list (option inode)) : kernel :=
  Kernel (outcomes k) (last_ino k) l (dentries k) (sb k) (atoms k).
Definition set_dentries (k : kernel) (l : list (option dentry)) : kernel :=
  Kernel (outcomes k) (last_ino k) (inodes k) l (sb k) (atoms k).
Definition set_sb (k : kernel) (s : super_block) : kernel :=
  Kernel (outcomes k) (last_ino k) (inodes k) (dentries k) s (atoms k).
Definition set_atoms (k : kernel) (m : atomics) : kernel :=
  Kernel (outcomes k) (last_ino k) (inodes k) (dentries k) (sb k) m.

Fixpoint set_slot {A : Type} (i : nat) (x : A) (l : list A) : list A :=
  match l, i with
  | [], _ => []
  | _ :: l', O => x :: l'
  | y :: l', S i' => y :: set_slot i' x l'
  end.

(** ** Kernel code as state passing

    A computation takes the kernel state and gives a result and the next
    state, or [None] when the kernel oopses (NULL dereference, use of a
    freed object). *)

Definition K (A : Type) : Type := kernel -> option (A * kernel).

Definition pure {A : Type} (a : A) : K A := fun k => Some (a, k).

Definition bind {A B : Type} (c : K A) (f : A -> K B) : K B :=
  fun k =>
    match c k with
    | Some (a, k') => f a k'
    | None => None
    end.

Declare Scope kernel_scope.
Delimit Scope kernel_scope with kernel.
Notation "x <- c ;; f" := (bind c (fun x => f))
  (at level 61, c at next level, right associativity) : kernel_scope.
Notation "c ;; f" := (bind c (fun _ => f))
  (at level 61, right associativity) : kernel_scope.
Local Open Scope kernel_scope.

(** *** Host functions

    Modelled from the spec: the host's allocation, directory-entry cache and
    inode bookkeeping, which the spec treats as external collaborators; each
    function below does what the kernel function of that name does to the
    objects of this mount. *)

(** One allocation attempt. *)
Definition kmalloc : K bool :=
  fun k =>
    match outcomes k with
    | [] => Some (true, k)
    | ok :: rest => Some (ok, set_outcomes k rest)
    end.

Definition blank_inode : inode := Inode 0 None None 0 1 None.

Definition new_inode : K (option nat) :=
  ok <- kmalloc ;;
  if ok : bool
  then fun k => Some (Some (length (inodes k)),
                      set_inodes k (inodes k ++ [Some blank_inode]))
  else pure None.

(** A store through an inode pointer. *)
Definition inode_store (i : option nat) (f : inode -> inode) : K unit :=
  fun k =>
    match i with
    | None => None
    | Some a =>
        match nth_error (inodes k) a with
        | Some (Some x) =>
            Some (tt, set_inodes k (set_slot a (Some (f x)) (inodes k)))
        | _ => None
        end
    end.

Definition get_next_ino : K Z :=
  fun k => let n := last_ino k + 1 in Some (n, set_last_ino k n).

(** [iput] drops the reference [new_inode] gave: the inode is freed.
    [iput(NULL)] does nothing. *)
Definition iput (i : option nat) : K unit :=
  match i with
  | None => pure tt
  | Some a =>
      fun k =>
        match nth_error (inodes k) a with
        | Some (Some _) => Some (tt, set_inodes k (set_slot a None (inodes k)))
        | _ => None
        end
  end.

Definition inode_init_owner (i : option nat) (mode : Z) : K unit :=
  inode_store i (fun x =>
    Inode (mode mod 2 ^ 16) (i_fop x) (i_op x) (i_ino x) (i_nlink x)
      (i_private x)).

Definition set_nlink (i : option nat) (n : Z) : K unit :=
  inode_store i (fun x =>
    Inode (i_mode x) (i_fop x) (i_op x) (i_ino x) n (i_private x)).

(** A new dentry under [parent], without inode. *)
Definition d_alloc_name (parent : nat) (name : string) : K (option nat) :=
  ok <- kmalloc ;;
  if ok : bool
  then fun k => Some (Some (length (dentries k)),
                      set_dentries k
                        (dentries k ++ [Some (Dentry name (Some parent) None)]))
  else pure None.

(** [d_add] attaches the inode and makes the dentry visible to lookups. *)
Definition d_add (d : nat) (i : option nat) : K unit :=
  fun k =>
    match nth_error (dentries k) d with
    | Some (Some x) =>
        Some (tt, set_dentries k
                    (set_slot d (Some (Dentry (d_name x) (d_parent x) i))
                       (dentries k)))
    | _ => None
    end.

(** [dput] of the only reference to a dentry that was never made visible:
    the dentry is freed. *)
Definition dput (d : option nat) : K unit :=
  match d with
  | None => pure tt
  | Some a =>
      fun k =>
        match nth_error (dentries k) a with
        | Some (Some _) =>
            Some (tt, set_dentries k (set_slot a None (dentries k)))
        | _ => None
        end
  end.

(** [d_make_root] allocates the root dentry for the inode; when it cannot,
    it drops the inode itself and returns NULL. *)
Definition d_make_root (root_inode : option nat) : K (option nat) :=
  match root_inode with
  | None => pure None
  | Some _ =>
      ok <- kmalloc ;;
      if ok : bool
      then fun k => Some (Some (length (dentries k)),
                          set_dentries k
                            (dentries k ++ [Some (Dentry "/" None root_inode)]))
      else iput root_inode ;; pure None
  end.

Definition atomic_set_K (p : atomic_ptr) (i : Z) : K unit :=
  fun k => Some (tt, set_atoms k (atomic_set (atoms k) p i)).

Definition sb_store (f : super_block -> super_block) : K unit :=
  fun k => Some (tt, set_sb k (f (sb k))).

(** *** The functions of [dummyvfs.c] *)

(** [dummyfs_make_inode(sb, mode, fops)] *)
Definition dummyfs_make_inode (mode : Z) (fops : file_operations)
  : K (option nat) :=
  inode <- new_inode ;;
  match inode with
  | None => pure None
  | Some _ =>
      inode_store inode (fun x =>
        Inode (mode mod 2 ^ 16) (i_fop x) (i_op x) (i_ino x) (i_nlink x)
          (i_private x)) ;;
      inode_store inode (fun x =>
        Inode (i_mode x) (Some fops) (i_op x) (i_ino x) (i_nlink x)
          (i_private x)) ;;
      ino <- get_next_ino ;;
      inode_store inode (fun x =>
        Inode (i_mode x) (i_fop x) (i_op x) ino (i_nlink x) (i_private x)) ;;
      pure inode
  end.

(** [dfs_open(inode, fp)] *)
Definition dfs_open (ino : inode) (fp : file) : Z * file :=
  (0, File (i_private ino)).

(** [dummyfs_create_dir(sb, parent, name)] *)
Definition dummyfs_create_dir (parent : nat) (name : string)
  : K (option nat) :=
  dentry <- d_alloc_name parent name ;;
  match dentry with
  | None => pure None                                  (* goto fail *)
  | Some d =>
      inode <- dummyfs_make_inode (Z.lor S_IFDIR (octal [7; 5; 5]))
                 simple_dir_operations ;;
      match inode with
      | None => dput dentry ;; pure None               (* goto fail_dput *)
      | Some _ =>
          inode_store inode (fun x =>
            Inode (i_mode x) (i_fop x) (Some simple_dir_inode_operations)
              (i_ino x) (i_nlink x) (i_private x)) ;;
          d_add d inode ;;
          pure dentry
      end
  end.

(** [dummyfs_create_file(sb, dir, name, counter)] *)
Definition dummyfs_create_file (dir : nat) (name : string)
    (counter : atomic_ptr) : K (option nat) :=
  (* Now we can create our dentry and the inode to go with it *)
  dentry <- d_alloc_name dir name ;;
  match dentry with
  | None => pure None                                  (* goto fail *)
  | Some d =>
      inode <- dummyfs_make_inode (Z.lor S_IFREG (octal [6; 4; 4]))
                 dummyfs_file_ops ;;
      match inode with
      | None => dput dentry ;; pure None               (* goto fail_dput *)
      | Some _ =>
          inode_store inode (fun x =>
            Inode (i_mode x) (i_fop x) (i_op x) (i_ino x) (i_nlink x)
              (Some counter)) ;;
          (* Put it all to the dentry cache and we are done *)
          d_add d inode ;;
          pure dentry
      end
  end.

(** [dummyfs_create_files(sb, root)]: a [void] function; what the two
    creation functions return is looked at only to place [subcounter]. *)
Definition dummyfs_create_files (root : nat) : K unit :=
  (* one counter in the top-level directory *)
  atomic_set_K addr_counter 0 ;;
  dummyfs_create_file root "counter" addr_counter ;;
  (* add one in a subdirectory *)
  atomic_set_K addr_subcounter 0 ;;
  subdir <- dummyfs_create_dir root "subdir" ;;
  match subdir with
  | Some s => dummyfs_create_file s "subcounter" addr_subcounter ;; pure tt
  | None => pure tt
  end.

(** [dfs_fill_super(sb, data, silent)] *)
Definition dfs_fill_super : K Z :=
  (* basic parameters *)
  sb_store (fun s =>
    SuperBlock VMACACHE_SIZE VMACACHE_SIZE LFS_MAGIC (Some dummyfs_ops)
      (s_root s)) ;;
  root <- dummyfs_make_inode (Z.lor S_IFDIR (octal [7; 5; 5]))
            simple_dir_operations ;;
  inode_init_owner root (Z.lor S_IFDIR (octal [7; 5; 5])) ;;
  match root with
  | None => pure (- ENOMEM)                            (* goto fail *)
  | Some _ =>
      inode_store root (fun x =>
        Inode (i_mode x) (i_fop x) (Some simple_dir_inode_operations)
          (i_ino x) (i_nlink x) (i_private x)) ;;
      set_nlink root 2 ;;
      root_dentry <- d_make_root root ;;
      match root_dentry with
      | None => iput root ;; pure (- ENOMEM)           (* goto fail_iput *)
      | Some rd =>
          sb_store (fun s =>
            SuperBlock (s_blocksize s) (s_blocksize_bits s) (s_magic s)
              (s_op s) root_dentry) ;;
          (* Make up the files which will be in this filesystem *)
          dummyfs_create_files rd ;;
          sb_store (fun s =>
            SuperBlock (s_blocksize s) (s_blocksize_bits s) (s_magic s)
              (s_op s) root_dentry) ;;
          pure 0
      end
  end.

(** The state [dfs_fill_super] is called in: a superblock that [sget] has
    just made, no object of this mount yet, and the allocation outcomes to
    come. *)
Definition blank_sb : super_block := SuperBlock 0 0 0 None None.

Definition fresh_kernel (allocation : list bool) (ino : Z) (m : atomics)
  : kernel :=
  Kernel allocation ino [] [] blank_sb m.

(** ** Looking at the published tree *)

(** The visible children of a dentry, in creation order: the live dentries
    below it that have an inode. *)
Fixpoint children_from (parent i : nat) (l : list (option dentry))
  : list (string * nat) :=
  match l with
  | [] => []
  | x :: l' =>
      let rest := children_from parent (S i) l' in
      match x with
      | Some (Dentry name (Some p) (Some _)) =>
          if Nat.eqb p parent then (name, i) :: rest else rest
      | _ => rest
      end
  end.

Definition children (k : kernel) (parent : nat) : list (string * nat) :=
  children_from parent 0 (dentries k).

(** The inode behind a dentry pointer. *)
Definition node_at (k : kernel) (d : nat) : option inode :=
  match nth_error (dentries k) d with
  | Some (Some (Dentry _ _ (Some i))) =>
      match nth_error (inodes k) i with
      | Some (Some x) => Some x
      | _ => None
      end
  | _ => None
  end.

Definition lookup (k : kernel) (parent : nat) (name : string) : option nat :=
  match find (fun c => String.eqb (fst c) name) (children k parent) with
  | Some (_, d) => Some d
  | None => None
  end.

(** Path resolution from the root of the superblock. *)
Fixpoint walk (k : kernel) (d : nat) (path : list string) : option nat :=
  match path with
  | [] => Some d
  | name :: path' =>
      match lookup k d name with
      | Some d' => walk k d' path'
      | None => None
      end
  end.

Definition resolve (k : kernel) (path : list string) : option inode :=
  match s_root (sb k) with
  | Some root =>
      match walk k root path with
      | Some d => node_at k d
      | None => None
      end
  | None => None
  end.

(** A counter file: regular, mode 0644, served by the handlers above and
    bound to the cell [p]. *)
Definition counter_file (x : inode) (p : atomic_ptr) : Prop :=
  i_mode x = Z.lor S_IFREG (octal [6; 4; 4]) /\
  S_ISREG (i_mode x) = true /\ permission_bits (i_mode x) = octal [6; 4; 4] /\
  i_fop x = Some dummyfs_file_ops /\
  i_private x = Some p.

(** A directory: mode 0755, served by libfs, without cell. *)
Definition directory (x : inode) : Prop :=
  i_mode x = Z.lor S_IFDIR (octal [7; 5; 5]) /\
  S_ISDIR (i_mode x) = true /\ permission_bits (i_mode x) = octal [7; 5; 5] /\
  i_fop x = Some simple_dir_operations /\
  i_private x = None.

(** The tree of the spec: exactly [counter] and [subdir] below the root,
    exactly [subcounter] below [subdir], both cells at 0, and the magic
    number in the superblock. *)
Definition complete_tree (k : kernel) : Prop :=
  exists root c s sc xc xs xsc,
    s_root (sb k) = Some root /\
    children k root = [("counter"%string, c); ("subdir"%string, s)] /\
    children k s = [("subcounter"%string, sc)] /\
    children k c = [] /\ children k sc = [] /\
    node_at k c = Some xc /\ counter_file xc addr_counter /\
    node_at k s = Some xs /\ directory xs /\
    node_at k sc = Some xsc /\ counter_file xsc addr_subcounter /\
    atomic_read (atoms k) addr_counter = 0 /\
    atomic_read (atoms k) addr_subcounter = 0 /\
    s_magic (sb k) = LFS_MAGIC.

(** No half-built node: every live dentry has a live inode. *)
Definition dentry_built (k : kernel) (x : option dentry) : bool :=
  match x with
  | None => true
  | Some (Dentry _ _ (Some i)) =>
      match nth_error (inodes k) i with
      | Some (Some _) => true
      | _ => false
      end
  | Some (Dentry _ _ None) => false
  end.

Definition no_half_built (k : kernel) : bool :=
  forallb (dentry_built k) (dentries k).

(** Some allocation made between [k] and [k'] failed. *)
Definition allocation_failed (k k' : kernel) : Prop :=
  exists used, outcomes k = used ++ outcomes k' /\ In false used.

(** C2 as the spec has it: when an allocation fails, the mount returns
    [-ENOMEM], publishes no root and leaves no object behind. *)
Definition rolls_back_on_failure (k : kernel) : Prop :=
  forall r k',
    dfs_fill_super k = Some (r, k') -> allocation_failed k k' ->
    r = - ENOMEM /\ s_root (sb k') = None /\
    Forall (eq None) (inodes k') /\ Forall (eq None) (dentries k').

(** C7 as the spec has it: whenever the mount returns 0 the tree is the
    complete one. *)
Definition success_means_complete (k : kernel) : Prop :=
  forall k', dfs_fill_super k = Some (0, k') -> complete_tree k'.

Local Close Scope kernel_scope.

(** ** Callers of the handlers

    Ways a program uses a counter file: several reads from the start, and
    reading to the end of file in chunks the way [cat] does.  Each call gets
    a fresh buffer of [count] bytes. *)

(** [n] reads at offset 0; the texts handed out, in order. *)
Fixpoint read_times (n : nat) (fp : file) (count : Z) (m : atomics)
  : option (list (list ascii) * atomics) :=
  match n with
  | O => Some ([], m)
  | S n' =>
      match dfs_read_file fp (repeat NUL (Z.to_nat count)) count 0 m with
      | Some r =>
          match read_times n' fp count (mem r) with
          | Some (texts, m') => Some (served r :: texts, m')
          | None => None
          end
      | None => None
      end
  end.

(** Reads of [count] bytes from position [offset] on, until one returns 0
    or fails; the bytes collected, the final position and the counters.
    [None] also when [fuel] calls were not enough. *)
Fixpoint read_to_eof (fuel : nat) (fp : file) (count offset : Z) (m : atomics)
  : option (list ascii * Z * atomics) :=
  match fuel with
  | O => None
  | S fuel' =>
      match dfs_read_file fp (repeat NUL (Z.to_nat count)) count offset m with
      | Some r =>
          if ret r <=? 0 then Some ([], pos r, mem r)
          else
            match read_to_eof fuel' fp count (pos r) (mem r) with
            | Some (text, offset', m') => Some (served r ++ text, offset', m')
            | None => None
            end
      | None => None
      end
  end.

(** The input of a write without its optional minus sign. *)
Definition after_sign (s : list ascii) : list ascii :=
  match s with
  | c :: s' => if Ascii.eqb c MINUS then s' else s
  | [] => []
  end.

(** Whether a request goes through a file bound to the cell [p]. *)
Definition bound_to (p : atomic_ptr) (q : request) : bool :=
  match private_data (handle q) with
  | Some p' => atomic_ptr_eqb p' p
  | None => false
  end.

(** ** What a mount should leave *)

(** Whether a node gets built out of the allocation outcomes to come, first
    the one of its dentry and, if that succeeds, the one of its inode; and
    the outcomes left for the nodes after it. *)
Definition node_allocated (l : list bool) : bool * list bool :=
  match l with
  | [] => (true, [])
  | false :: l1 => (false, l1)
  | true :: [] => (true, [])
  | true :: ok :: l2 => (ok, l2)
  end.

(** The paths that exist after a mount whose allocations below the root
    have the outcomes [rest]: [subcounter] needs [subdir], nothing needs
    [counter]. *)
Definition expected_paths (rest : list bool) : list (list string) :=
  let '(has_counter, l1) := node_allocated rest in
  let '(has_subdir, l2) := node_allocated l1 in
  let '(has_subcounter, _) := node_allocated l2 in
  (if has_counter then [["counter"%string]] else []) ++
  (if has_subdir
   then ["subdir"%string]
        :: (if has_subcounter then [["subdir"; "subcounter"]%string] else [])
   else []).

(** The paths of the published tree, parents before children, down to the
    third level. *)
Definition published_paths (k : kernel) : list (list string) :=
  match s_root (sb k) with
  | None => []
  | Some root =>
      flat_map (fun c =>
        [fst c] ::
        flat_map (fun g =>
          [fst c; fst g] ::
          map (fun h => [fst c; fst g; fst h]) (children k (snd g)))
          (children k (snd c)))
        (children k root)
  end.

(** An inode served by the handlers of this file is a regular file with a
    cell; an inode served by libfs is a directory without one. *)
Definition inode_consistent (x : inode) : bool :=
  match i_fop x, i_private x with
  | Some dummyfs_file_ops, Some _ => S_ISREG (i_mode x)
  | Some simple_dir_operations, None => S_ISDIR (i_mode x)
  | _, _ => false
  end.

Definition inodes_consistent (k : kernel) : bool :=
  forallb (fun slot =>
             match slot with
             | Some x => inode_consistent x
             | None => true
             end) (inodes k).

(** Shape of the tables: the dentry without parent is the root of the
    superblock and every other live dentry hangs below a live directory;
    every live inode belongs to exactly one live dentry; the names below one
    dentry differ. *)
Definition is_directory (k : kernel) (d : nat) : bool :=
  match node_at k d with
  | Some x => S_ISDIR (i_mode x)
  | None => false
  end.

Definition dentry_placed (k : kernel) (entry : nat * option dentry) : bool :=
  match entry with
  | (_, None) => true
  | (d, Some (Dentry _ None _)) =>
      match s_root (sb k) with
      | Some root => Nat.eqb root d
      | None => false
      end
  | (_, Some (Dentry _ (Some p) _)) => is_directory k p
  end.

Definition references (k : kernel) (i : nat) : nat :=
  length (filter (fun slot =>
                    match slot with
                    | Some (Dentry _ _ (Some j)) => Nat.eqb i j
                    | _ => false
                    end) (dentries k)).

Definition inode_owned (k : kernel) (entry : nat * option inode) : bool :=
  match entry with
  | (_, None) => true
  | (i, Some _) => Nat.eqb (references k i) 1
  end.

Fixpoint distinct (names : list string) : bool :=
  match names with
  | [] => true
  | n :: rest =>
      negb (existsb (String.eqb n) rest) && distinct rest
  end.

Definition indexed {A : Type} (l : list A) : list (nat * A) :=
  combine (seq 0 (length l)) l.

Definition tree_ok (k : kernel) : bool :=
  forallb (dentry_placed k) (indexed (dentries k)) &&
  forallb (inode_owned k) (indexed (inodes k)) &&
  forallb (fun entry => distinct (map fst (children k (fst entry))))
    (indexed (dentries k)).

(** * Facts *)

(** ** Machine integers *)

Lemma to_int_id z : is_int z -> to_int z = z.
Proof.
  unfold is_int, INT_MIN, INT_MAX, to_int, signed. intros H.
  rewrite Z.mod_small; lia.
Qed.

Lemma to_int_range z : is_int (to_int z).
Proof.
  unfold is_int, INT_MIN, INT_MAX, to_int, signed.
  pose proof (Z.mod_pos_bound (z + 2 ^ (32 - 1)) (2 ^ 32)). lia.
Qed.

Lemma to_long_id z : - 2 ^ 63 <= z < 2 ^ 63 -> to_long z = z.
Proof.
  unfold to_long, signed. intros H. rewrite Z.mod_small; lia.
Qed.

Lemma to_size_t_id z : is_size_t z -> to_size_t z = z.
Proof. unfold is_size_t, to_size_t. intros H. apply Z.mod_small; lia. Qed.

(** [to_int] only looks at the low 32 bits. *)
Lemma to_int_add_mul z k : to_int (z + k * 2 ^ 32) = to_int z.
Proof.
  unfold to_int, signed.
  replace (z + k * 2 ^ 32 + 2 ^ (32 - 1))
    with (z + 2 ^ (32 - 1) + k * 2 ^ 32) by ring.
  rewrite Z.mod_add by lia. reflexivity.
Qed.

(** Narrowing twice is narrowing once. *)
Lemma to_int_to_long z : to_int (to_long z) = to_int z.
Proof.
  unfold to_long, signed.
  pose proof (Z.div_mod (z + 2 ^ (64 - 1)) (2 ^ 64) ltac:(lia)) as E.
  set (q := (z + 2 ^ (64 - 1)) / 2 ^ 64) in *.
  replace ((z + 2 ^ (64 - 1)) mod 2 ^ 64 - 2 ^ (64 - 1))
    with (z + (- q * 2 ^ 32) * 2 ^ 32) by lia.
  apply to_int_add_mul.
Qed.

Lemma to_int_to_size_t z : to_int (to_size_t z) = to_int z.
Proof.
  unfold to_size_t.
  pose proof (Z.div_mod z (2 ^ 64) ltac:(lia)) as E.
  set (q := z / 2 ^ 64) in *.
  replace (z mod 2 ^ 64) with (z + (- q * 2 ^ 32) * 2 ^ 32) by lia.
  apply to_int_add_mul.
Qed.

(** Incrementing and then decrementing an [int] gives it back, also
    across the wrap from [INT_MAX] to [INT_MIN]. *)
Lemma to_int_succ_pred z : is_int z -> to_int (to_int (z + 1) - 1) = z.
Proof.
  intros H. unfold is_int, INT_MIN, INT_MAX in H.
  destruct (Z.eq_dec z (2 ^ 31 - 1)) as [->|Hne].
  - reflexivity.
  - rewrite (to_int_id (z + 1)) by (unfold is_int, INT_MIN, INT_MAX; lia).
    replace (z + 1 - 1) with z by ring.
    apply to_int_id. unfold is_int, INT_MIN, INT_MAX; lia.
Qed.

(** ** Lists, and the text of a number *)

Section ListFacts.
Context {A : Type}.

Lemma firstn_skipn_app_l (l l' : list A) (i n : nat) :
  (i + n <= length l)%nat ->
  firstn n (skipn i (l ++ l')) = firstn n (skipn i l).
Proof.
  intros H. rewrite skipn_app, firstn_app.
  replace (n - length (skipn i l))%nat with 0%nat
    by (rewrite length_skipn; lia).
  simpl. apply app_nil_r.
Qed.

Lemma firstn_skipn_concat (l : list A) (i n : nat) :
  firstn i l ++ firstn n (skipn i l) = firstn (i + n) l.
Proof.
  revert l. induction i as [|i IH]; intros l; simpl.
  - reflexivity.
  - destruct l as [|a l]; simpl.
    + now rewrite firstn_nil.
    + now rewrite IH.
Qed.
End ListFacts.

Lemma put_dec_length fuel n acc :
  (length (put_dec fuel n acc) <= fuel + length acc)%nat.
Proof.
  revert n acc. induction fuel as [|fuel IH]; intros n acc; simpl.
  - lia.
  - destruct (n / 10 =? 0); simpl; [lia|].
    specialize (IH (n / 10) (digit_char (n mod 10) :: acc)). simpl in IH. lia.
Qed.

Lemma number_length v : (length (number v) <= 11)%nat.
Proof.
  unfold number. destruct (v <? 0); simpl.
  - pose proof (put_dec_length 10 (- v) []). simpl in *. lia.
  - pose proof (put_dec_length 10 v []). simpl in *. lia.
Qed.

Lemma serialized_length_bounds v : 1 <= serialized_length v <= 12.
Proof.
  unfold serialized_length, serialize. rewrite length_app. simpl.
  pose proof (number_length v). lia.
Qed.

(** [tmp] is large enough: nothing is cut off. *)
Lemma snprintf_TMPSIZE v :
  snprintf TMPSIZE v = (serialized_length v, serialize v ++ [NUL]).
Proof.
  unfold snprintf. fold (serialize v). fold (serialized_length v).
  pose proof (serialized_length_bounds v) as Hb. unfold serialized_length in Hb.
  rewrite firstn_all2; [reflexivity|].
  unfold TMPSIZE. lia.
Qed.

(** ** The read handler, case by case *)

Section ReadCases.
Variables (fp : file) (p : atomic_ptr) (buf : list ascii).
Variables (count offset : Z) (m : atomics).
Hypothesis Hfp : private_data fp = Some p.
Hypothesis Hoff : 0 <= offset.
Hypothesis Hcount : 0 <= count.

Let v := logical_value offset (atomic_read m p).
Let len := serialized_length v.
Let n := Z.min count (len - offset).

Lemma read_unfold :
  dfs_read_file fp buf count offset m =
  if offset >? len then Some (RW 0 buf offset (after_read offset m p))
  else
    match bytes_at (serialize v ++ [NUL]) offset n with
    | None => None
    | Some src =>
        let '(uncopied, buf') := copy_to_user buf src n in
        if negb (uncopied =? 0)
        then Some (RW (- EFAULT) buf' offset (after_read offset m p))
        else Some (RW n buf' (to_long (offset + n)) (after_read offset m p))
    end.
Proof.
  unfold dfs_read_file. rewrite Hfp.
  subst n len v. unfold logical_value, after_read.
  destruct (offset >? 0); rewrite snprintf_TMPSIZE;
    match goal with |- context [serialized_length ?x] =>
      pose proof (serialized_length_bounds x) as Hb;
      set (len := serialized_length x) in * end;
    destruct (Z.gtb_spec offset len) as [Hgt|Hle]; try reflexivity;
    (assert (Hn : (if count >? to_size_t (len - offset)
                   then to_size_t (len - offset) else count)
                  = Z.min count (len - offset));
     [ rewrite to_size_t_id by (unfold is_size_t; lia);
       destruct (Z.gtb_spec count (len - offset)); lia
     | rewrite Hn; reflexivity ]).
Qed.

(** Past the end of the text: nothing is copied. *)
Lemma read_past_end :
  len < offset ->
  dfs_read_file fp buf count offset m =
  Some (RW 0 buf offset (after_read offset m p)).
Proof.
  intros H. rewrite read_unfold.
  destruct (Z.gtb_spec offset len); [reflexivity|lia].
Qed.

Lemma read_source :
  offset <= len ->
  bytes_at (serialize v ++ [NUL]) offset n =
  Some (firstn (Z.to_nat n) (skipn (Z.to_nat offset) (serialize v))).
Proof.
  intros H. unfold bytes_at.
  assert (Hlen : len = Z.of_nat (length (serialize v))) by reflexivity.
  rewrite length_app. simpl length.
  replace ((0 <=? offset) && (0 <=? n)
           && (offset + n <=? Z.of_nat (length (serialize v) + 1)))
    with true by (symmetry; rewrite !andb_true_iff, !Z.leb_le; lia).
  f_equal. apply firstn_skipn_app_l. lia.
Qed.

(** Inside the text, with room in the caller's buffer. *)
Lemma read_copied :
  offset <= len -> n <= Z.of_nat (length buf) ->
  dfs_read_file fp buf count offset m =
  Some (RW n
          (firstn (Z.to_nat n) (skipn (Z.to_nat offset) (serialize v))
           ++ skipn (Z.to_nat n) buf)
          (offset + n) (after_read offset m p)).
Proof.
  intros H Hbuf. rewrite read_unfold, read_source by assumption.
  destruct (Z.gtb_spec offset len); [lia|].
  unfold copy_to_user. rewrite Z.min_l by assumption.
  rewrite Z.sub_diag. simpl.
  rewrite firstn_firstn, Nat.min_id.
  pose proof (serialized_length_bounds v). fold len in H0.
  rewrite to_long_id by lia. reflexivity.
Qed.

(** Inside the text, but the caller's buffer is too short. *)
Lemma read_fault :
  offset <= len -> Z.of_nat (length buf) < n ->
  exists buf',
    dfs_read_file fp buf count offset m =
    Some (RW (- EFAULT) buf' offset (after_read offset m p)).
Proof.
  intros H Hbuf. rewrite read_unfold, read_source by assumption.
  destruct (Z.gtb_spec offset len); [lia|].
  unfold copy_to_user. rewrite Z.min_r by lia.
  destruct (Z.eqb_spec (n - Z.of_nat (length buf)) 0); [lia|].
  simpl. eexists. reflexivity.
Qed.

End ReadCases.

(** ** Decimal conversion *)

Lemma isdigit_val c : isdigit c = true -> 0 <= digit_val c <= 9.
Proof.
  unfold isdigit, digit_val. rewrite andb_true_iff, !N.leb_le. lia.
Qed.

Lemma digit_char_ok d :
  0 <= d <= 9 -> isdigit (digit_char d) = true /\ digit_val (digit_char d) = d.
Proof.
  intros H.
  assert (E : d = 0 \/ d = 1 \/ d = 2 \/ d = 3 \/ d = 4 \/ d = 5 \/ d = 6
              \/ d = 7 \/ d = 8 \/ d = 9) by lia.
  repeat (destruct E as [->|E]; [split; reflexivity|]).
  subst d. split; reflexivity.
Qed.

Lemma take_digits_length s : (length (take_digits s) <= length s)%nat.
Proof.
  induction s as [|c s IH]; simpl; [lia|].
  destruct (isdigit c); simpl; lia.
Qed.

Lemma take_digits_all s : Forall (fun c => isdigit c = true) (take_digits s).
Proof.
  induction s as [|c s IH]; simpl; [constructor|].
  destruct (isdigit c) eqn:E; constructor; assumption.
Qed.

Lemma take_digits_id l :
  Forall (fun c => isdigit c = true) l -> take_digits l = l.
Proof.
  induction 1 as [|c l Hc _ IH]; simpl; [reflexivity|].
  now rewrite Hc, IH.
Qed.

(** Characters after the first one that is not a digit do not matter. *)
Lemma take_digits_app s c r :
  isdigit c = false -> take_digits (s ++ c :: r) = take_digits s.
Proof.
  intros Hc. induction s as [|a s IH]; simpl.
  - now rewrite Hc.
  - destruct (isdigit a); [now rewrite IH|reflexivity].
Qed.

Lemma dec_val_lower a l :
  Forall (fun c => isdigit c = true) l -> 0 <= a -> a <= dec_val a l.
Proof.
  intros H. revert a. induction H as [|c l Hc _ IH]; intros a Ha.
  - simpl. lia.
  - apply isdigit_val in Hc.
    change (dec_val a (c :: l)) with (dec_val (a * 10 + digit_val c) l).
    specialize (IH (a * 10 + digit_val c)). lia.
Qed.

Lemma dec_val_upper a l :
  Forall (fun c => isdigit c = true) l -> 0 <= a ->
  dec_val a l < (a + 1) * 10 ^ Z.of_nat (length l).
Proof.
  intros H. revert a. induction H as [|c l Hc _ IH]; intros a Ha.
  - simpl. lia.
  - apply isdigit_val in Hc.
    specialize (IH (a * 10 + digit_val c) ltac:(lia)).
    change (dec_val a (c :: l)) with (dec_val (a * 10 + digit_val c) l).
    simpl length. rewrite Nat2Z.inj_succ, Z.pow_succ_r by lia.
    assert (0 < 10 ^ Z.of_nat (length l)) by (apply Z.pow_pos_nonneg; lia).
    nia.
Qed.

(** As long as the value fits an [unsigned long long], the kernel's loop
    computes the value of the leading digits. *)
Lemma parse_integer_exact s a :
  0 <= a -> dec_val a (take_digits s) < 2 ^ 64 ->
  parse_integer s a = dec_val a (take_digits s).
Proof.
  revert a. induction s as [|c s IH]; intros a Ha Hlt; simpl.
  - reflexivity.
  - destruct (isdigit c) eqn:Hc; [|reflexivity].
    simpl in Hlt. rewrite Hc in Hlt.
    change (dec_val a (c :: take_digits s))
      with (dec_val (a * 10 + digit_val c) (take_digits s)) in *.
    pose proof (isdigit_val c Hc).
    pose proof (dec_val_lower (a * 10 + digit_val c) _
                  (take_digits_all s) ltac:(lia)).
    rewrite to_size_t_id by (unfold is_size_t; lia).
    apply IH; lia.
Qed.

Lemma simple_strtoul_short s :
  (length s <= 19)%nat -> simple_strtoul s = dec_val 0 (take_digits s).
Proof.
  intros H. unfold simple_strtoul. apply parse_integer_exact; [lia|].
  pose proof (dec_val_upper 0 _ (take_digits_all s) ltac:(lia)) as Hu.
  pose proof (take_digits_length s).
  assert (10 ^ Z.of_nat (length (take_digits s)) <= 10 ^ 19)
    by (apply Z.pow_le_mono_r; lia).
  lia.
Qed.

(** On the zero-filled [tmp] of the write handler, [simple_strtol] narrowed
    to [int] is the lenient conversion of the caller's bytes. *)
Lemma simple_strtol_tmp input k :
  (length input <= 19)%nat ->
  to_int (simple_strtol (input ++ repeat NUL k)) =
  to_int (lenient_decimal input).
Proof.
  intros Hlen.
  assert (Htd : forall s, take_digits (s ++ repeat NUL k) = take_digits s).
  { intros s. destruct k as [|k]; simpl.
    - now rewrite app_nil_r.
    - now apply take_digits_app. }
  assert (Hul : forall s, (length s <= 19)%nat ->
              simple_strtoul (s ++ repeat NUL k) = dec_val 0 (take_digits s)).
  { intros s Hs. unfold simple_strtoul.
    rewrite parse_integer_exact; rewrite ?Htd; [reflexivity|lia|].
    pose proof (dec_val_upper 0 _ (take_digits_all s) ltac:(lia)) as Hu.
    pose proof (take_digits_length s).
    assert (10 ^ Z.of_nat (length (take_digits s)) <= 10 ^ 19)
      by (apply Z.pow_le_mono_r; lia).
    lia. }
  destruct input as [|c s]; simpl.
  - destruct k; reflexivity.
  - simpl in Hlen. destruct (Ascii.eqb c MINUS) eqn:Hm.
    + rewrite to_int_to_long, to_int_to_size_t, Hul by lia. reflexivity.
    + rewrite to_int_to_long.
      change (c :: s ++ repeat NUL k) with ((c :: s) ++ repeat NUL k).
      rewrite Hul by (simpl; lia). reflexivity.
Qed.

(** [number] writes the decimal digits of every [int]: reading its text back
    gives the value, whatever follows the digits. *)
Lemma put_dec_digits fuel n acc :
  0 <= n -> Forall (fun c => isdigit c = true) acc ->
  Forall (fun c => isdigit c = true) (put_dec fuel n acc).
Proof.
  revert n acc. induction fuel as [|fuel IH]; intros n acc Hn Hacc; simpl.
  - assumption.
  - assert (Hd : isdigit (digit_char (n mod 10)) = true)
      by (apply digit_char_ok; pose proof (Z.mod_pos_bound n 10); lia).
    destruct (n / 10 =? 0).
    + now constructor.
    + apply IH; [apply Z.div_pos; lia | now constructor].
Qed.

Lemma put_dec_val fuel n acc :
  0 <= n < 10 ^ Z.of_nat fuel ->
  dec_val 0 (put_dec fuel n acc) = dec_val n acc.
Proof.
  revert n acc. induction fuel as [|fuel IH]; intros n acc Hn.
  - simpl in *. now replace n with 0 by lia.
  - rewrite Nat2Z.inj_succ, Z.pow_succ_r in Hn by lia.
    pose proof (Z.mod_pos_bound n 10 ltac:(lia)) as Hm.
    pose proof (Z.div_mod n 10 ltac:(lia)) as Hdm.
    destruct (digit_char_ok (n mod 10) ltac:(lia)) as [_ Hv].
    simpl. destruct (Z.eqb_spec (n / 10) 0) as [E|E].
    + change (dec_val 0 (digit_char (n mod 10) :: acc))
        with (dec_val (0 * 10 + digit_val (digit_char (n mod 10))) acc).
      rewrite Hv. f_equal. lia.
    + rewrite IH.
      * change (dec_val (n / 10) (digit_char (n mod 10) :: acc))
          with (dec_val (n / 10 * 10 + digit_val (digit_char (n mod 10))) acc).
        rewrite Hv. f_equal. lia.
      * split; [apply Z.div_pos; lia|].
        apply Z.div_lt_upper_bound; lia.
Qed.

Lemma serialize_roundtrip v :
  is_int v -> lenient_decimal (serialize v) = v.
Proof.
  unfold is_int, INT_MIN, INT_MAX, serialize, number. intros Hv.
  assert (HNL : isdigit NL = false) by reflexivity.
  destruct (Z.ltb_spec v 0) as [Hneg|Hpos].
  - pose proof (put_dec_digits 10 (- v) [] ltac:(lia) ltac:(constructor)) as Hd.
    pose proof (put_dec_val 10 (- v) [] ltac:(simpl; lia)) as Hval.
    set (ds := put_dec 10 (- v) []) in *.
    change ((MINUS :: ds) ++ [NL]) with (MINUS :: (ds ++ [NL])).
    unfold lenient_decimal. rewrite Ascii.eqb_refl.
    rewrite take_digits_app, take_digits_id, Hval by assumption.
    simpl. lia.
  - pose proof (put_dec_digits 10 v [] Hpos ltac:(constructor)) as Hd.
    pose proof (put_dec_val 10 v [] ltac:(simpl; lia)) as Hval.
    set (ds := put_dec 10 v []) in *.
    destruct ds as [|c l].
    + simpl in Hval. simpl. lia.
    + change ((c :: l) ++ [NL]) with (c :: (l ++ [NL])).
      unfold lenient_decimal.
      assert (Hc : Ascii.eqb c MINUS = false).
      { inversion Hd as [|? ? Hc _]; subst.
        destruct (Ascii.eqb_spec c MINUS) as [->|]; [discriminate|reflexivity]. }
      rewrite Hc.
      change (c :: l ++ [NL]) with ((c :: l) ++ [NL]).
      rewrite take_digits_app, take_digits_id by assumption. exact Hval.
Qed.

(** ** The write handler, case by case *)

Lemma skipn_repeat_NUL (n k : nat) :
  skipn n (repeat NUL k) = repeat NUL (k - n).
Proof.
  revert k. induction n as [|n IH]; intros k; simpl.
  - now rewrite Nat.sub_0_r.
  - destruct k as [|k]; simpl; [reflexivity|apply IH].
Qed.

Lemma write_rejected fp buf count offset m :
  offset <> 0 \/ TMPSIZE <= count ->
  dfs_write_file fp buf count offset m = Some (RW (- EINVAL) buf offset m).
Proof.
  intros H. unfold dfs_write_file.
  destruct (Z.eqb_spec offset 0) as [E|E]; simpl; [|reflexivity].
  destruct H as [H|H]; [contradiction|].
  rewrite Z.geb_leb. destruct (Z.leb_spec TMPSIZE count); [reflexivity|lia].
Qed.

Lemma write_fault fp buf count m :
  0 <= count < TMPSIZE -> Z.of_nat (length buf) < count ->
  dfs_write_file fp buf count 0 m = Some (RW (- EFAULT) buf 0 m).
Proof.
  intros Hc Hb. unfold dfs_write_file. simpl (negb (0 =? 0)). cbv iota.
  rewrite Z.geb_leb. destruct (Z.leb_spec TMPSIZE count); [lia|].
  unfold copy_from_user. rewrite Z.min_r by lia.
  destruct (Z.eqb_spec (count - Z.of_nat (length buf)) 0); [lia|reflexivity].
Qed.

Lemma write_stored fp p buf count m :
  private_data fp = Some p ->
  0 <= count < TMPSIZE -> count <= Z.of_nat (length buf) ->
  dfs_write_file fp buf count 0 m =
  Some (RW count buf 0
          (atomic_set m p
             (to_int (lenient_decimal (firstn (Z.to_nat count) buf))))).
Proof.
  intros Hfp Hc Hb. unfold dfs_write_file. simpl (negb (0 =? 0)). cbv iota.
  rewrite Z.geb_leb. destruct (Z.leb_spec TMPSIZE count); [lia|].
  unfold copy_from_user. rewrite Z.min_l by lia.
  rewrite Z.sub_diag. simpl (negb (0 =? 0)). cbv iota. rewrite Hfp.
  change (memset NUL (0 : Z)) with (@nil ascii).
  change (memset NUL TMPSIZE) with (repeat NUL 20). rewrite app_nil_l.
  rewrite skipn_repeat_NUL, simple_strtol_tmp; [reflexivity|].
  rewrite length_firstn. unfold TMPSIZE in *. lia.
Qed.

(** Characters after the first one that is not a digit are not looked at;
    only a minus sign in first position counts. *)
Lemma lenient_decimal_stops s c rest :
  isdigit c = false -> s <> [] \/ c <> MINUS ->
  lenient_decimal (s ++ c :: rest) = lenient_decimal s.
Proof.
  intros Hc Hs. destruct s as [|a s]; simpl.
  - destruct Hs as [Hs|Hs]; [contradiction|].
    destruct (Ascii.eqb_spec c MINUS); [contradiction|]. now rewrite Hc.
  - destruct (Ascii.eqb a MINUS).
    + now rewrite take_digits_app.
    + destruct (isdigit a); [|reflexivity].
      now rewrite take_digits_app.
Qed.

(** ** The counters *)

Lemma atomic_read_set_same m p i : atomic_read (atomic_set m p i) p = i.
Proof. destruct p; reflexivity. Qed.

Lemma atomic_read_set_other m p q i :
  q <> p -> atomic_read (atomic_set m p i) q = atomic_read m q.
Proof. destruct p, q; intros H; try reflexivity; contradiction. Qed.

Lemma atomic_read_inc_same m p :
  atomic_read (atomic_inc m p) p = to_int (atomic_read m p + 1).
Proof. unfold atomic_inc. apply atomic_read_set_same. Qed.

Lemma atomic_read_inc_other m p q :
  q <> p -> atomic_read (atomic_inc m p) q = atomic_read m q.
Proof. unfold atomic_inc. apply atomic_read_set_other. Qed.

Lemma atomics_ok_set m p i : atomics_ok m -> atomics_ok (atomic_set m p (to_int i)).
Proof.
  intros H q. destruct p, q; simpl; try apply to_int_range.
  - exact (H addr_subcounter).
  - exact (H addr_counter).
Qed.

(** ** Reads that succeed *)

Lemma firstn_app_exact {A : Type} (l l' : list A) (n : nat) :
  length l = n -> firstn n (l ++ l') = l.
Proof.
  intros <-. rewrite firstn_app, Nat.sub_diag, firstn_all. simpl.
  apply app_nil_r.
Qed.

Lemma firstn_min_length {A : Type} (l : list A) (c : Z) :
  firstn (Z.to_nat (Z.min c (Z.of_nat (length l)))) l = firstn (Z.to_nat c) l.
Proof.
  destruct (Z.le_ge_cases c (Z.of_nat (length l))).
  - now rewrite Z.min_l.
  - rewrite Z.min_r, Nat2Z.id, firstn_all by assumption.
    symmetry. apply firstn_all2. lia.
Qed.

Lemma read_ok fp p buf count offset m :
  private_data fp = Some p -> 0 <= offset -> 0 <= count ->
  let v := logical_value offset (atomic_read m p) in
  let n := Z.min count (serialized_length v - offset) in
  offset <= serialized_length v -> n <= Z.of_nat (length buf) ->
  exists r,
    dfs_read_file fp buf count offset m = Some r /\
    ret r = n /\ pos r = offset + n /\ mem r = after_read offset m p /\
    served r = firstn (Z.to_nat count) (skipn (Z.to_nat offset) (serialize v)).
Proof.
  intros Hfp Hoff Hcount v n Hlen Hbuf.
  eexists. split; [apply (read_copied fp p); assumption|].
  fold v. fold n. unfold served. simpl.
  repeat split.
  set (tail := skipn (Z.to_nat offset) (serialize v)).
  assert (Htail : Z.of_nat (length tail) = serialized_length v - offset).
  { unfold tail, serialized_length. rewrite length_skipn.
    unfold serialized_length in Hlen. lia. }
  rewrite firstn_app_exact.
  - unfold n. rewrite <- Htail. apply firstn_min_length.
  - rewrite length_firstn. lia.
Qed.

(** ** Every well-formed request is served, and touches one cell only *)

Lemma read_total fp p buf count offset m :
  private_data fp = Some p -> 0 <= offset -> 0 <= count ->
  exists r,
    dfs_read_file fp buf count offset m = Some r /\
    mem r = after_read offset m p.
Proof.
  intros Hfp Hoff Hcount.
  pose proof (read_ok fp p buf count offset m Hfp Hoff Hcount) as Hok.
  pose proof (read_fault fp p buf count offset m Hfp Hoff Hcount) as Hfault.
  pose proof (read_past_end fp p buf count offset m Hfp Hoff) as Hend.
  cbv zeta in Hok.
  set (len := serialized_length _) in *.
  destruct (Z.lt_ge_cases len offset) as [Hpast|Hin].
  - eexists. split; [apply Hend; exact Hpast|reflexivity].
  - destruct (Z.le_gt_cases (Z.min count (len - offset))
                (Z.of_nat (length buf))) as [Hb|Hb].
    + destruct (Hok Hin Hb) as (r & Hr & _ & _ & Hm & _). eauto.
    + destruct (Hfault Hin Hb) as (b & Hr).
      eexists. split; [exact Hr|reflexivity].
Qed.

Lemma write_total fp p buf count offset m :
  private_data fp = Some p -> 0 <= count ->
  exists r,
    dfs_write_file fp buf count offset m = Some r /\
    (mem r = m \/ exists i, mem r = atomic_set m p (to_int i)).
Proof.
  intros Hfp Hcount.
  destruct (Z.eq_dec offset 0) as [->|Hne].
  - destruct (Z.lt_ge_cases count TMPSIZE) as [Hlt|Hge].
    + destruct (Z.le_gt_cases count (Z.of_nat (length buf))) as [Hb|Hb].
      * eexists. split; [apply (write_stored fp p); auto; lia|].
        right. eexists. reflexivity.
      * eexists. split; [apply write_fault; lia|]. now left.
    + eexists. split; [apply write_rejected; right; lia|]. now left.
  - eexists. split; [apply write_rejected; left; exact Hne|]. now left.
Qed.

Lemma serve_frame q m p :
  well_formed q -> private_data (handle q) <> Some p ->
  exists r, serve q m = Some r /\ atomic_read (mem r) p = atomic_read m p.
Proof.
  intros [Hbound Hrange] Hother.
  destruct q as [fp buf count offset|fp buf count offset]; simpl in *;
    destruct (private_data fp) as [p'|] eqn:Hfp; try contradiction;
    assert (Hpp : p <> p') by congruence.
  - destruct (read_total fp p' buf count offset m Hfp) as (r & Hr & Hm);
      try lia.
    exists r. split; [exact Hr|]. rewrite Hm. unfold after_read.
    destruct (offset >? 0); [reflexivity|].
    now apply atomic_read_inc_other.
  - destruct (write_total fp p' buf count offset m Hfp) as (r & Hr & Hm);
      try lia.
    exists r. split; [exact Hr|].
    destruct Hm as [Hm|[i Hm]]; rewrite Hm; [reflexivity|].
    now apply atomic_read_set_other.
Qed.

Lemma serve_all_frame qs m p :
  Forall well_formed qs ->
  (forall q, In q qs -> private_data (handle q) <> Some p) ->
  exists m', serve_all qs m = Some m' /\ atomic_read m' p = atomic_read m p.
Proof.
  intros Hwf. revert m. induction Hwf as [|q qs Hq _ IH]; intros m Hother.
  - exists m. split; reflexivity.
  - destruct (serve_frame q m p Hq (Hother q (or_introl eq_refl)))
      as (r & Hr & Hkeep).
    destruct (IH (mem r) (fun q' Hin => Hother q' (or_intror Hin)))
      as (m' & Hm' & Hkeep').
    exists m'. simpl. rewrite Hr. split; [exact Hm'|congruence].
Qed.

(** The cells hold [int]s, whatever is asked of the handlers. *)
Lemma serve_atomics_ok q m :
  well_formed q -> atomics_ok m ->
  exists r, serve q m = Some r /\ atomics_ok (mem r).
Proof.
  intros [Hbound Hrange] Hm.
  destruct q as [fp buf count offset|fp buf count offset]; simpl in *;
    destruct (private_data fp) as [p|] eqn:Hfp; try contradiction.
  - destruct (read_total fp p buf count offset m Hfp) as (r & Hr & Hmem);
      try lia.
    exists r. split; [exact Hr|]. rewrite Hmem. unfold after_read.
    destruct (offset >? 0); [exact Hm|]. now apply atomics_ok_set.
  - destruct (write_total fp p buf count offset m Hfp) as (r & Hr & Hmem);
      try lia.
    exists r. split; [exact Hr|].
    destruct Hmem as [Hmem|[i Hmem]]; rewrite Hmem; [exact Hm|].
    now apply atomics_ok_set.
Qed.

Lemma serve_all_atomics_ok qs m :
  Forall well_formed qs -> atomics_ok m ->
  exists m', serve_all qs m = Some m' /\ atomics_ok m'.
Proof.
  intros Hwf. revert m. induction Hwf as [|q qs Hq _ IH]; intros m Hm.
  - exists m. split; [reflexivity|exact Hm].
  - destruct (serve_atomics_ok q m Hq Hm) as (r & Hr & Hok).
    destruct (IH (mem r) Hok) as (m' & Hm' & Hok').
    exists m'. simpl. rewrite Hr. split; assumption.
Qed.

(** ** How the root can fail

    When the root inode cannot be allocated, [inode_init_owner] is reached
    with a NULL inode before the test of [root]; when the root dentry cannot
    be allocated, [d_make_root] has dropped the inode and [iput(root)] drops
    it again.  Neither path comes back with [-ENOMEM]. *)

Lemma fill_super_root_inode_missing rest ino m :
  dfs_fill_super (fresh_kernel (false :: rest) ino m) = None.
Proof. vm_compute. reflexivity. Qed.

Lemma fill_super_root_dentry_missing rest ino m :
  dfs_fill_super (fresh_kernel (true :: false :: rest) ino m) = None.
Proof. vm_compute. reflexivity. Qed.

(** ** Half-built nodes *)

(** A live dentry is built when it has a live inode. *)
Lemma no_half_built_spec k :
  no_half_built k = true ->
  forall d x, nth_error (dentries k) d = Some (Some x) ->
  exists i y, d_inode x = Some i /\ nth_error (inodes k) i = Some (Some y).
Proof.
  unfold no_half_built. rewrite forallb_forall. intros H d x Hd.
  specialize (H (Some x) (nth_error_In _ _ Hd)). simpl in H.
  destruct x as [name parent [i|]]; [|discriminate].
  destruct (nth_error (inodes k) i) as [[y|]|] eqn:E; try discriminate.
  exists i, y. split; [reflexivity|exact E].
Qed.

(** ** The handlers on concrete requests *)

Example number_samples :
  number 0 = str "0" /\ number 1234567890 = str "1234567890" /\
  number (-42) = str "-42" /\ number INT_MIN = str "-2147483648" /\
  number INT_MAX = str "2147483647".
Proof. do 4 (split; [vm_compute; reflexivity|]). vm_compute. reflexivity. Qed.

(** Writing "42" and reading twice from the start gives "42\n" and then
    "43\n". *)
Example write_42_then_read_twice :
  let fp := File (Some addr_counter) in
  exists w r1 r2,
    dfs_write_file fp (str "42") 2 0 (Atomics 0 0) = Some w /\
    dfs_read_file fp (repeat NUL 16) 16 0 (mem w) = Some r1 /\
    dfs_read_file fp (repeat NUL 16) 16 0 (mem r1) = Some r2 /\
    served r1 = str "42" ++ [NL] /\ served r2 = str "43" ++ [NL] /\
    atomic_read (mem r2) addr_counter = 44.
Proof.
  do 3 eexists.
  do 5 (split; [vm_compute; reflexivity|]). vm_compute. reflexivity.
Qed.

(** A read delivered one byte at a time. *)
Example read_in_three_calls :
  let fp := File (Some addr_subcounter) in
  exists r1 r2 r3 r4,
    dfs_read_file fp (repeat NUL 1) 1 0 (Atomics 0 10) = Some r1 /\
    dfs_read_file fp (repeat NUL 1) 1 (pos r1) (mem r1) = Some r2 /\
    dfs_read_file fp (repeat NUL 1) 1 (pos r2) (mem r2) = Some r3 /\
    dfs_read_file fp (repeat NUL 1) 1 (pos r3) (mem r3) = Some r4 /\
    served r1 ++ served r2 ++ served r3 = str "10" ++ [NL] /\
    ret r4 = 0 /\ mem r4 = Atomics 0 11.
Proof.
  do 4 eexists.
  do 6 (split; [vm_compute; reflexivity|]). vm_compute. reflexivity.
Qed.

(** The increment wraps at [INT_MAX]; the continuation still serves the
    value of the first call. *)
Example read_at_INT_MAX :
  let fp := File (Some addr_counter) in
  exists r1 r2,
    dfs_read_file fp (repeat NUL 4) 4 0 (Atomics INT_MAX 0) = Some r1 /\
    dfs_read_file fp (repeat NUL 16) 16 (pos r1) (mem r1) = Some r2 /\
    mem r1 = Atomics INT_MIN 0 /\
    served r1 ++ served r2 = str "2147483647" ++ [NL].
Proof.
  do 2 eexists.
  do 3 (split; [vm_compute; reflexivity|]). vm_compute. reflexivity.
Qed.

(** A read of zero bytes at offset 0 counts as a read. *)
Example empty_read_increments :
  dfs_read_file (File (Some addr_counter)) [] 0 0 (Atomics 5 0)
  = Some (RW 0 [] 0 (Atomics 6 0)).
Proof. vm_compute. reflexivity. Qed.

(** * The read and write protocol *)

(** C1: a read at offset 0 on a file whose cell holds [v] serialises [v]
    itself, the value before the increment: the caller receives the first
    [count] bytes of the decimal text of [v] and a newline, all of it when
    [count] covers it.  Whether or not the copy succeeds the cell is
    incremented once, to [v + 1] in [int] arithmetic, so that the next read
    at offset 0 serves [v + 1].  With the cell at 0 the text is "0\n" and the
    cell is left at 1. *)
Theorem read_at_zero_serves_then_increments fp p buf count m :
  private_data fp = Some p -> is_int (atomic_read m p) -> 0 <= count ->
  let v := atomic_read m p in
  exists r,
    dfs_read_file fp buf count 0 m = Some r /\
    lenient_decimal (serialize v) = v /\
    (count <= Z.of_nat (length buf) ->
       served r = firstn (Z.to_nat count) (serialize v) /\
       (serialized_length v <= count -> served r = serialize v)) /\
    mem r = atomic_inc m p /\
    atomic_read (mem r) p = to_int (v + 1) /\
    (v < INT_MAX -> atomic_read (mem r) p = v + 1) /\
    (forall buf' count',
       serialized_length (to_int (v + 1)) <= count' <= Z.of_nat (length buf') ->
       exists r',
         dfs_read_file fp buf' count' 0 (mem r) = Some r' /\
         served r' = serialize (to_int (v + 1))) /\
    (v = 0 -> 2 <= count <= Z.of_nat (length buf) ->
       served r = ["0"%char; NL] /\ atomic_read (mem r) p = 1).
Proof.
  intros Hfp Hint Hcount v.
  pose proof (serialized_length_bounds v) as Hlen.
  pose proof (read_ok fp p buf count 0 m Hfp (Z.le_refl 0) Hcount) as Hok.
  pose proof (read_fault fp p buf count 0 m Hfp (Z.le_refl 0) Hcount) as Hfault.
  cbv zeta in Hok.
  change (logical_value 0 (atomic_read m p)) with v in Hok, Hfault.
  change (after_read 0 m p) with (atomic_inc m p) in Hok, Hfault.
  rewrite Z.sub_0_r in Hok, Hfault.
  specialize (Hok ltac:(lia)). specialize (Hfault ltac:(lia)).
  assert (Hex : exists r, dfs_read_file fp buf count 0 m = Some r /\
                          mem r = atomic_inc m p).
  { destruct (Z.le_gt_cases (Z.min count (serialized_length v))
                (Z.of_nat (length buf))) as [Hb|Hb].
    - destruct (Hok Hb) as (r0 & E & _ & _ & Hm & _). eauto.
    - destruct (Hfault Hb) as (b & E). eexists. split; [exact E|reflexivity]. }
  destruct Hex as (r & Hr & Hmem). exists r.
  assert (Hserved : count <= Z.of_nat (length buf) ->
                    served r = firstn (Z.to_nat count) (serialize v)).
  { intros Hb. destruct (Hok ltac:(lia)) as (r0 & E & _ & _ & _ & Hs).
    rewrite Hr in E. injection E as <-. exact Hs. }
  assert (Hcell : atomic_read (mem r) p = to_int (v + 1))
    by (rewrite Hmem; apply atomic_read_inc_same).
  split; [exact Hr|].
  split; [apply serialize_roundtrip; exact Hint|].
  split.
  { intros Hb. split; [auto|]. intros Hc. rewrite (Hserved Hb).
    apply firstn_all2. unfold serialized_length in Hc. lia. }
  split; [auto|]. split; [exact Hcell|].
  split.
  { intros Hmax. rewrite Hcell. apply to_int_id.
    unfold is_int, INT_MIN, INT_MAX in *. lia. }
  split.
  { intros buf' count' Hc.
    pose proof (serialized_length_bounds (to_int (v + 1))) as Hlen'.
    assert (Hv' : logical_value 0 (atomic_read (mem r) p) = to_int (v + 1))
      by (rewrite Hcell; reflexivity).
    pose proof (read_ok fp p buf' count' 0 (mem r) Hfp (Z.le_refl 0)
                  ltac:(lia)) as Hok'.
    cbv zeta in Hok'. rewrite Hv', Z.sub_0_r in Hok'.
    destruct (Hok' ltac:(lia) ltac:(lia)) as (r' & E & _ & _ & _ & Hs).
    exists r'. split; [exact E|]. rewrite Hs. simpl skipn.
    apply firstn_all2. unfold serialized_length in Hc. lia. }
  intros Hv0 Hc. split.
  - rewrite Hserved by lia. rewrite Hv0.
    change (serialize 0) with ["0"%char; NL].
    apply firstn_all2. simpl. lia.
  - rewrite Hcell, Hv0. reflexivity.
Qed.

Lemma read_at_zero_serves_then_increments_witness :
  exists r,
    dfs_read_file (File (Some addr_counter)) (repeat NUL 8) 8 0 (Atomics 0 0)
    = Some r /\
    served r = ["0"%char; NL] /\ atomic_read (mem r) addr_counter = 1.
Proof.
  destruct (read_at_zero_serves_then_increments
              (File (Some addr_counter)) addr_counter (repeat NUL 8) 8
              (Atomics 0 0) eq_refl)
    as (r & Hr & _ & _ & _ & _ & _ & _ & H0).
  - unfold is_int, INT_MIN, INT_MAX. simpl. lia.
  - lia.
  - exists r. split; [exact Hr|]. apply H0; [reflexivity|simpl; lia].
Defined.

(** C3: a read at an offset above 0 on a file whose cell holds [v]
    serialises [v - 1] and leaves the cell alone.  Hence, after a read at
    offset 0 that returned [n > 0] bytes, the read at offset [n] hands out
    the bytes of the SAME text from position [n] on (the rest of it when the
    count covers it), and the two calls together have incremented the cell
    once. *)
Theorem continuation_read_same_value fp p m :
  private_data fp = Some p -> is_int (atomic_read m p) ->
  let v := atomic_read m p in
  (forall buf count offset,
     0 < offset -> 0 <= count ->
     let text := serialize (to_int (v - 1)) in
     exists r,
       dfs_read_file fp buf count offset m = Some r /\
       mem r = m /\
       (offset <= Z.of_nat (length text) -> count <= Z.of_nat (length buf) ->
        served r = firstn (Z.to_nat count) (skipn (Z.to_nat offset) text)))
  /\
  (forall buf1 count1 buf2 count2,
     0 < count1 <= Z.of_nat (length buf1) ->
     0 <= count2 <= Z.of_nat (length buf2) ->
     exists r1 r2,
       dfs_read_file fp buf1 count1 0 m = Some r1 /\
       0 < ret r1 /\ pos r1 = ret r1 /\
       dfs_read_file fp buf2 count2 (pos r1) (mem r1) = Some r2 /\
       served r2 =
         firstn (Z.to_nat count2) (skipn (Z.to_nat (ret r1)) (serialize v)) /\
       served r1 ++ served r2 =
         firstn (Z.to_nat (ret r1 + count2)) (serialize v) /\
       (serialized_length v <= ret r1 + count2 ->
        served r1 ++ served r2 = serialize v) /\
       mem r2 = atomic_inc m p /\
       atomic_read (mem r2) p = to_int (v + 1)).
Proof.
  intros Hfp Hint v. split.
  - intros buf count offset Hoff Hcount text.
    assert (Hlv : logical_value offset (atomic_read m p) = to_int (v - 1)).
    { unfold logical_value. destruct (Z.gtb_spec offset 0); [reflexivity|lia]. }
    assert (Har : after_read offset m p = m).
    { unfold after_read. destruct (Z.gtb_spec offset 0); [reflexivity|lia]. }
    pose proof (serialized_length_bounds (to_int (v - 1))) as Hlen.
    pose proof (read_ok fp p buf count offset m Hfp ltac:(lia) Hcount) as Hok.
    pose proof (read_fault fp p buf count offset m Hfp ltac:(lia) Hcount)
      as Hfault.
    pose proof (read_past_end fp p buf count offset m Hfp) as Hend.
    cbv zeta in Hok. rewrite Hlv, Har in *.
    set (len := serialized_length (to_int (v - 1))) in *.
    destruct (Z.lt_ge_cases len offset) as [Hpast|Hin].
    + eexists. split; [apply Hend; [lia|exact Hpast]|]. split; [reflexivity|].
      unfold len, serialized_length in Hpast. fold text in Hpast. lia.
    + destruct (Z.le_gt_cases (Z.min count (len - offset))
                  (Z.of_nat (length buf))) as [Hb|Hb].
      * destruct (Hok ltac:(lia) Hb) as (r & E & _ & _ & Hm & Hs).
        exists r. repeat split; auto.
      * destruct (Hfault ltac:(lia) Hb) as (b & E).
        eexists. split; [exact E|]. split; [reflexivity|]. lia.
  - intros buf1 count1 buf2 count2 Hc1 Hc2.
    pose proof (serialized_length_bounds v) as Hlen.
    pose proof (read_ok fp p buf1 count1 0 m Hfp (Z.le_refl 0) ltac:(lia))
      as Hok1.
    cbv zeta in Hok1.
    change (logical_value 0 (atomic_read m p)) with v in Hok1.
    change (after_read 0 m p) with (atomic_inc m p) in Hok1.
    rewrite Z.sub_0_r in Hok1.
    destruct (Hok1 ltac:(lia) ltac:(lia)) as (r1 & E1 & Hn1 & Hp1 & Hm1 & Hs1).
    simpl in Hp1. simpl skipn in Hs1.
    set (n1 := ret r1) in *.
    assert (Hn1pos : 0 < n1 <= serialized_length v) by lia.
    assert (Hlv : logical_value n1 (atomic_read (mem r1) p) = v).
    { unfold logical_value. destruct (Z.gtb_spec n1 0); [|lia].
      rewrite Hm1, atomic_read_inc_same. now apply to_int_succ_pred. }
    assert (Har : after_read n1 (mem r1) p = mem r1).
    { unfold after_read. destruct (Z.gtb_spec n1 0); [reflexivity|lia]. }
    pose proof (read_ok fp p buf2 count2 n1 (mem r1) Hfp ltac:(lia) ltac:(lia))
      as Hok2.
    cbv zeta in Hok2. rewrite Hlv, Har in Hok2.
    destruct (Hok2 ltac:(lia) ltac:(lia)) as (r2 & E2 & Hn2 & Hp2 & Hm2 & Hs2).
    assert (Hs1' : served r1 = firstn (Z.to_nat n1) (serialize v)).
    { rewrite Hs1. subst n1. rewrite Hn1.
      symmetry. apply firstn_min_length. }
    assert (Hcat : served r1 ++ served r2 =
                   firstn (Z.to_nat (n1 + count2)) (serialize v)).
    { rewrite Hs1', Hs2, firstn_skipn_concat. f_equal. lia. }
    exists r1, r2. rewrite Hp1.
    repeat (split; [first [assumption | lia | congruence]|]).
    split.
    { intros Hall. rewrite Hcat. apply firstn_all2.
      unfold serialized_length in Hall. lia. }
    split; [congruence|].
    rewrite Hm2, Hm1. apply atomic_read_inc_same.
Qed.

Lemma continuation_read_same_value_witness :
  exists r1 r2,
    dfs_read_file (File (Some addr_counter)) (repeat NUL 2) 2 0 (Atomics 123 0)
    = Some r1 /\
    dfs_read_file (File (Some addr_counter)) (repeat NUL 8) 8 (pos r1) (mem r1)
    = Some r2 /\
    served r1 ++ served r2 = serialize 123 /\
    atomic_read (mem r2) addr_counter = 124.
Proof.
  destruct (continuation_read_same_value
              (File (Some addr_counter)) addr_counter (Atomics 123 0) eq_refl)
    as [_ H].
  - unfold is_int, INT_MIN, INT_MAX. simpl. lia.
  - destruct (H (repeat NUL 2) 2 (repeat NUL 8) 8) as
      (r1 & r2 & E1 & Hpos & _ & E2 & _ & _ & Hall & _ & Hcell);
      [simpl; lia | simpl; lia |].
    exists r1, r2. repeat split; try assumption.
    apply Hall. vm_compute in E1. injection E1 as <-.
    vm_compute. discriminate.
Defined.

(** C4: a write at offset 0 of fewer than [TMPSIZE] bytes, all of them
    readable, converts the bytes leniently (an optional minus sign and the
    digits up to the first character that is not one; what follows is not
    checked), stores the value, as an [int], in the cell of the file and of
    no other, and returns the whole length. *)
Theorem write_at_zero_stores_parsed_value fp p buf count m :
  private_data fp = Some p ->
  0 <= count < TMPSIZE -> count <= Z.of_nat (length buf) ->
  let input := firstn (Z.to_nat count) buf in
  exists r,
    dfs_write_file fp buf count 0 m = Some r /\
    ret r = count /\
    atomic_read (mem r) p = to_int (lenient_decimal input) /\
    (is_int (lenient_decimal input) ->
     atomic_read (mem r) p = lenient_decimal input) /\
    (forall s c rest,
       input = s ++ c :: rest -> isdigit c = false -> s <> [] \/ c <> MINUS ->
       atomic_read (mem r) p = to_int (lenient_decimal s)).
Proof.
  intros Hfp Hc Hb input.
  eexists. split; [apply (write_stored fp p); assumption|].
  fold input. simpl. rewrite atomic_read_set_same.
  split; [reflexivity|]. split; [reflexivity|]. split.
  - intros Hi. now apply to_int_id.
  - intros s c rest -> Hd Hs. now rewrite lenient_decimal_stops.
Qed.

Lemma write_at_zero_stores_parsed_value_witness :
  exists r,
    dfs_write_file (File (Some addr_counter)) (str "-42 apples") 10 0
      (Atomics 7 9) = Some r /\
    ret r = 10 /\ atomic_read (mem r) addr_counter = -42.
Proof.
  destruct (write_at_zero_stores_parsed_value
              (File (Some addr_counter)) addr_counter (str "-42 apples") 10
              (Atomics 7 9) eq_refl)
    as (r & Hr & Hret & Hcell & _).
  - unfold TMPSIZE. lia.
  - simpl. lia.
  - exists r. repeat split; assumption.
Defined.

(** C5: a write at an offset other than 0 is refused, and so is a write of
    [TMPSIZE] (20) bytes or more; the source reports both with the one error
    number [EINVAL].  In both cases the counters, the caller's bytes and the
    position are as before. *)
Theorem write_refused_leaves_cell fp buf count offset m :
  (offset <> 0 ->
   dfs_write_file fp buf count offset m = Some (RW (- EINVAL) buf offset m))
  /\
  (TMPSIZE <= count ->
   dfs_write_file fp buf count offset m = Some (RW (- EINVAL) buf offset m)).
Proof.
  split; intros H; apply write_rejected; [left|right]; assumption.
Qed.

Lemma write_refused_leaves_cell_witness :
  dfs_write_file (File (Some addr_counter)) (str "5") 1 3 (Atomics 7 9)
  = Some (RW (- EINVAL) (str "5") 3 (Atomics 7 9)) /\
  dfs_write_file (File (Some addr_counter))
    (str "12345678901234567890") 20 0 (Atomics 7 9)
  = Some (RW (- EINVAL) (str "12345678901234567890") 0 (Atomics 7 9)).
Proof.
  split.
  - apply (proj1 (write_refused_leaves_cell
                    (File (Some addr_counter)) (str "5") 1 3 (Atomics 7 9))).
    discriminate.
  - apply (proj2 (write_refused_leaves_cell (File (Some addr_counter))
                    (str "12345678901234567890") 20 0 (Atomics 7 9))).
    unfold TMPSIZE. lia.
Defined.

(** C6: with [text] the serialised value of the read (decimal digits and
    newline): at or beyond the end of [text] a read returns zero bytes;
    before it, the read returns [min count (length text - offset)] bytes,
    the ones of [text] from position [offset] on, unless the caller's buffer
    cannot take them, in which case the read fails with [EFAULT]. *)
Theorem read_returns_window_of_text fp p buf count offset m :
  private_data fp = Some p -> 0 <= offset -> 0 <= count ->
  let text := serialize (logical_value offset (atomic_read m p)) in
  let len := Z.of_nat (length text) in
  let n := Z.min count (len - offset) in
  (len <= offset ->
   exists r,
     dfs_read_file fp buf count offset m = Some r /\
     ret r = 0 /\ served r = []) /\
  (offset < len -> n <= Z.of_nat (length buf) ->
   exists r,
     dfs_read_file fp buf count offset m = Some r /\
     ret r = n /\
     Z.of_nat (length (served r)) = n /\
     served r = firstn (Z.to_nat n) (skipn (Z.to_nat offset) text)) /\
  (offset < len -> Z.of_nat (length buf) < n ->
   exists r,
     dfs_read_file fp buf count offset m = Some r /\ ret r = - EFAULT).
Proof.
  intros Hfp Hoff Hcount text len n.
  pose proof (read_ok fp p buf count offset m Hfp Hoff Hcount) as Hok.
  pose proof (read_fault fp p buf count offset m Hfp Hoff Hcount) as Hfault.
  pose proof (read_past_end fp p buf count offset m Hfp Hoff) as Hend.
  cbv zeta in Hok. unfold serialized_length in Hok, Hfault, Hend.
  fold text in Hok, Hfault, Hend. fold len in Hok, Hfault, Hend.
  fold n in Hok, Hfault.
  split; [|split].
  - intros Hpast. destruct (Z.eq_dec offset len) as [E|E].
    + destruct (Hok ltac:(lia) ltac:(lia)) as (r & Hr & Hn & _ & _ & _).
      exists r. split; [exact Hr|].
      assert (ret r = 0) by lia. split; [assumption|].
      unfold served. now rewrite H.
    + eexists. split; [apply Hend; lia|]. split; reflexivity.
  - intros Hin Hb.
    destruct (Hok ltac:(lia) Hb) as (r & Hr & Hn & _ & _ & Hs).
    exists r. split; [exact Hr|]. split; [exact Hn|].
    assert (Hw : served r = firstn (Z.to_nat n) (skipn (Z.to_nat offset) text)).
    { rewrite Hs. unfold n.
      replace (len - offset)
        with (Z.of_nat (length (skipn (Z.to_nat offset) text)))
        by (rewrite length_skipn; unfold len; lia).
      symmetry. apply firstn_min_length. }
    split; [|exact Hw].
    rewrite Hw, length_firstn, length_skipn. unfold len in *. lia.
  - intros Hin Hb. destruct (Hfault ltac:(lia) Hb) as (b & Hr).
    eexists. split; [exact Hr|reflexivity].
Qed.

Lemma read_returns_window_of_text_witness :
  exists r,
    dfs_read_file (File (Some addr_counter)) (repeat NUL 2) 2 1 (Atomics 1235 0)
    = Some r /\
    ret r = 2 /\ served r = str "23".
Proof.
  destruct (read_returns_window_of_text
              (File (Some addr_counter)) addr_counter (repeat NUL 2) 2 1
              (Atomics 1235 0) eq_refl)
    as (_ & H & _); [lia | lia |].
  destruct H as (r & Hr & Hn & _ & Hs); [vm_compute; reflexivity | simpl; lia |].
  exists r. repeat split; assumption.
Defined.

(** C9: a read at offset 0 that fails with [EFAULT] has incremented the cell
    all the same and has not moved the position: nothing is undone.  Such
    reads exist (a buffer shorter than what is to be copied), and the next
    read at offset 0 that succeeds serves [v + 1]. *)
Theorem read_fault_keeps_increment fp p buf count m :
  private_data fp = Some p -> 0 <= count ->
  let v := atomic_read m p in
  (forall r,
     dfs_read_file fp buf count 0 m = Some r -> ret r = - EFAULT ->
     mem r = atomic_inc m p /\ atomic_read (mem r) p = to_int (v + 1) /\
     pos r = 0) /\
  (Z.of_nat (length buf) < Z.min count (serialized_length v) ->
   exists r,
     dfs_read_file fp buf count 0 m = Some r /\ ret r = - EFAULT /\
     forall buf' count',
       serialized_length (to_int (v + 1)) <= count' <= Z.of_nat (length buf') ->
       exists r',
         dfs_read_file fp buf' count' 0 (mem r) = Some r' /\
         served r' = serialize (to_int (v + 1))).
Proof.
  intros Hfp Hcount v.
  pose proof (serialized_length_bounds v) as Hlen.
  pose proof (read_ok fp p buf count 0 m Hfp (Z.le_refl 0) Hcount) as Hok.
  pose proof (read_fault fp p buf count 0 m Hfp (Z.le_refl 0) Hcount) as Hfault.
  cbv zeta in Hok.
  change (logical_value 0 (atomic_read m p)) with v in Hok, Hfault.
  change (after_read 0 m p) with (atomic_inc m p) in Hok, Hfault.
  rewrite Z.sub_0_r in Hok, Hfault.
  specialize (Hok ltac:(lia)). specialize (Hfault ltac:(lia)).
  split.
  - intros r Hr Hret.
    destruct (Z.le_gt_cases (Z.min count (serialized_length v))
                (Z.of_nat (length buf))) as [Hb|Hb].
    + destruct (Hok Hb) as (r0 & E & Hn & _).
      rewrite Hr in E. injection E as <-. unfold EFAULT in Hret. lia.
    + destruct (Hfault Hb) as (b & E).
      rewrite Hr in E. injection E as ->. simpl.
      split; [reflexivity|]. split; [apply atomic_read_inc_same|reflexivity].
  - intros Hb. destruct (Hfault Hb) as (b & E).
    eexists. split; [exact E|]. split; [reflexivity|].
    intros buf' count' Hc. simpl mem.
    pose proof (serialized_length_bounds (to_int (v + 1))) as Hlen'.
    assert (Hv' : logical_value 0 (atomic_read (atomic_inc m p) p)
                  = to_int (v + 1))
      by (rewrite atomic_read_inc_same; reflexivity).
    pose proof (read_ok fp p buf' count' 0 (atomic_inc m p) Hfp (Z.le_refl 0)
                  ltac:(lia)) as Hok'.
    cbv zeta in Hok'. rewrite Hv', Z.sub_0_r in Hok'.
    destruct (Hok' ltac:(lia) ltac:(lia)) as (r' & E' & _ & _ & _ & Hs).
    exists r'. split; [exact E'|]. rewrite Hs. simpl skipn.
    apply firstn_all2. unfold serialized_length in Hc. lia.
Qed.

Lemma read_fault_keeps_increment_witness :
  exists r,
    dfs_read_file (File (Some addr_subcounter)) [] 4 0 (Atomics 0 41) = Some r /\
    ret r = - EFAULT /\ atomic_read (mem r) addr_subcounter = 42.
Proof.
  destruct (read_fault_keeps_increment
              (File (Some addr_subcounter)) addr_subcounter [] 4
              (Atomics 0 41) eq_refl)
    as [Hall Hex]; [lia|].
  destruct Hex as (r & Hr & Hret & _); [vm_compute; reflexivity|].
  exists r. split; [exact Hr|]. split; [exact Hret|].
  apply (Hall r Hr Hret).
Defined.

(** C10: a read that succeeds moves the position forward by the number of
    bytes it returns, possibly 0; a read that fails with [EFAULT] leaves the
    position where it was; reads end in no other way; and a write never
    moves the position. *)
Theorem position_follows_bytes_returned fp p buf count offset m :
  private_data fp = Some p -> 0 <= offset -> 0 <= count ->
  (exists r,
     dfs_read_file fp buf count offset m = Some r /\
     (0 <= ret r /\ pos r = offset + ret r \/
      ret r = - EFAULT /\ pos r = offset)) /\
  (exists w,
     dfs_write_file fp buf count offset m = Some w /\ pos w = offset).
Proof.
  intros Hfp Hoff Hcount. split.
  - pose proof (read_ok fp p buf count offset m Hfp Hoff Hcount) as Hok.
    pose proof (read_fault fp p buf count offset m Hfp Hoff Hcount) as Hfault.
    pose proof (read_past_end fp p buf count offset m Hfp Hoff) as Hend.
    cbv zeta in Hok.
    set (len := serialized_length _) in *.
    destruct (Z.lt_ge_cases len offset) as [Hpast|Hin].
    + eexists. split; [apply Hend; exact Hpast|]. left. simpl. lia.
    + destruct (Z.le_gt_cases (Z.min count (len - offset))
                  (Z.of_nat (length buf))) as [Hb|Hb].
      * destruct (Hok Hin Hb) as (r & Hr & Hn & Hp & _).
        exists r. split; [exact Hr|]. left. lia.
      * destruct (Hfault Hin Hb) as (b & Hr).
        eexists. split; [exact Hr|]. right. split; reflexivity.
  - destruct (Z.eq_dec offset 0) as [->|Hne].
    + destruct (Z.lt_ge_cases count TMPSIZE) as [Hlt|Hge].
      * destruct (Z.le_gt_cases count (Z.of_nat (length buf))) as [Hb|Hb].
        -- eexists. split; [apply (write_stored fp p); auto; lia|reflexivity].
        -- eexists. split; [apply write_fault; lia|reflexivity].
      * eexists. split; [apply write_rejected; right; lia|reflexivity].
    + eexists. split; [apply write_rejected; left; exact Hne|reflexivity].
Qed.

Lemma position_follows_bytes_returned_witness :
  exists r,
    dfs_read_file (File (Some addr_counter)) (repeat NUL 3) 3 0 (Atomics 77 0)
    = Some r /\ ret r = 3 /\ pos r = 3.
Proof.
  destruct (position_follows_bytes_returned
              (File (Some addr_counter)) addr_counter (repeat NUL 3) 3 0
              (Atomics 77 0) eq_refl)
    as [(r & Hr & H) _]; [lia | lia |].
  exists r. split; [exact Hr|].
  vm_compute in Hr. injection Hr as <-. split; reflexivity.
Defined.

(** * Mounting *)

(** Case analysis on the next [n] allocation outcomes of the list [l]. *)
Ltac next_outcomes n l :=
  lazymatch n with
  | O => idtac
  | S ?n' =>
      destruct l as [|[|] l];
      [ idtac | next_outcomes n' l | next_outcomes n' l ]
  end.

(** The same when all the outcomes are known to be successes. *)
Ltac next_successes n l H :=
  lazymatch n with
  | O => idtac
  | S ?n' =>
      destruct l as [|[|] l];
      [ idtac | next_successes n' l H | simpl in H; discriminate H ]
  end.

(** C2, where the code departs from it: the counter dentry cannot be
    allocated, and yet the mount returns 0 with a root published and live
    objects left. *)
Lemma child_failure_is_not_surfaced :
  ~ rolls_back_on_failure (fresh_kernel [true; true; false] 0 (Atomics 0 0)).
Proof.
  intros H.
  assert (E : exists k',
             dfs_fill_super (fresh_kernel [true; true; false] 0 (Atomics 0 0))
             = Some (0, k') /\ outcomes k' = []).
  { eexists. split; [vm_compute; reflexivity|]. vm_compute. reflexivity. }
  destruct E as (k' & E & Hout).
  destruct (H 0 k' E) as [Hret _].
  - exists [true; true; false]. rewrite Hout. split; [reflexivity|].
    simpl. auto.
  - discriminate Hret.
Qed.

(** C2, as the code has it: allocation failures below the root are not
    surfaced.  Once the root inode and the root dentry are allocated,
    [dfs_fill_super] returns 0 and publishes the root directory, with the
    magic number set, whichever of the later allocations fail; a child whose
    inode cannot be allocated has its dentry released, so that every dentry
    left has an inode. *)
Theorem mount_ignores_child_allocation_failures rest ino m :
  exists k' root x,
    dfs_fill_super (fresh_kernel (true :: true :: rest) ino m) = Some (0, k') /\
    s_root (sb k') = Some root /\
    node_at k' root = Some x /\ directory x /\
    s_magic (sb k') = LFS_MAGIC /\
    no_half_built k' = true.
Proof.
  next_outcomes 6%nat rest;
    (do 3 eexists; split; [vm_compute; reflexivity|];
     repeat split; vm_compute; reflexivity).
Qed.

(** C7, where the code departs from it: the dentry of [subdir] cannot be
    allocated; the mount returns 0 and the tree holds [counter] alone. *)
Lemma successful_mount_with_partial_tree :
  ~ success_means_complete
      (fresh_kernel [true; true; true; true; false] 0 (Atomics 0 0)).
Proof.
  intros H.
  assert (E : exists k',
             dfs_fill_super
               (fresh_kernel [true; true; true; true; false] 0 (Atomics 0 0))
             = Some (0, k') /\
             s_root (sb k') = Some 0%nat /\
             children k' 0 = [("counter"%string, 1%nat)]).
  { eexists. split; [vm_compute; reflexivity|].
    split; vm_compute; reflexivity. }
  destruct E as (k' & E & Hroot' & Hch').
  destruct (H k' E) as (root & c & s & sc & xc & xs & xsc & Hroot & Hch & _).
  rewrite Hroot' in Hroot. injection Hroot as <-.
  rewrite Hch' in Hch. discriminate Hch.
Qed.

(** C7, as the code has it: after a mount during which every allocation
    succeeds, the root has exactly the regular file [counter] (mode 0644,
    cell [counter]) and the directory [subdir] (mode 0755), [subdir] has
    exactly the regular file [subcounter] (mode 0644, cell [subcounter]),
    both cells are at 0 and the superblock carries the magic number
    0x11223344. *)
Theorem mount_builds_complete_tree allocation ino m :
  forallb (fun ok : bool => ok) allocation = true ->
  exists k',
    dfs_fill_super (fresh_kernel allocation ino m) = Some (0, k') /\
    complete_tree k' /\ s_magic (sb k') = 0x11223344.
Proof.
  intros H.
  next_successes 8%nat allocation H;
    (eexists; split; [vm_compute; reflexivity|];
     split; [|vm_compute; reflexivity];
     exists 0%nat, 1%nat, 2%nat, 3%nat; do 3 eexists;
     repeat split; vm_compute; reflexivity).
Qed.

Lemma mount_builds_complete_tree_witness :
  exists k',
    dfs_fill_super (fresh_kernel (repeat true 8) 100 (Atomics 5 6))
    = Some (0, k') /\
    complete_tree k' /\ s_magic (sb k') = 0x11223344.
Proof.
  apply (mount_builds_complete_tree (repeat true 8) 100 (Atomics 5 6)).
  vm_compute. reflexivity.
Defined.

(** C8: the files [/counter] and [/subdir/subcounter] of a mounted tree are
    bound to the two different cells [counter] and [subcounter]; and whatever
    the sequence of reads and writes, the requests made through files bound
    to other cells than [p] are all served and leave the value of [p] as it
    was. *)
Theorem counters_are_independent qs m p :
  Forall well_formed qs ->
  (forall q, In q qs -> private_data (handle q) <> Some p) ->
  (exists m', serve_all qs m = Some m' /\ atomic_read m' p = atomic_read m p)
  /\
  (forall ino m0 fp,
     exists k' xc xsc,
       dfs_fill_super (fresh_kernel [] ino m0) = Some (0, k') /\
       resolve k' ["counter"%string] = Some xc /\
       resolve k' ["subdir"%string; "subcounter"%string] = Some xsc /\
       private_data (snd (dfs_open xc fp)) = Some addr_counter /\
       private_data (snd (dfs_open xsc fp)) = Some addr_subcounter /\
       addr_counter <> addr_subcounter).
Proof.
  intros Hwf Hother. split.
  - now apply serve_all_frame.
  - intros ino m0 fp. do 3 eexists.
    do 5 (split; [vm_compute; reflexivity|]). discriminate.
Qed.

Lemma counters_are_independent_witness :
  exists m',
    serve_all
      [ Write (File (Some addr_counter)) (str "42") 2 0;
        Read (File (Some addr_counter)) (repeat NUL 8) 8 0;
        Read (File (Some addr_counter)) (repeat NUL 8) 8 0 ]
      (Atomics 3 17) = Some m' /\
    atomic_read m' addr_subcounter = 17.
Proof.
  apply (counters_are_independent
           [ Write (File (Some addr_counter)) (str "42") 2 0;
             Read (File (Some addr_counter)) (repeat NUL 8) 8 0;
             Read (File (Some addr_counter)) (repeat NUL 8) 8 0 ]
           (Atomics 3 17) addr_subcounter).
  - repeat constructor; simpl; try discriminate; lia.
  - intros q Hq. simpl in Hq.
    destruct Hq as [<-|[<-|[<-|[]]]]; simpl; discriminate.
Defined.

(** * Further properties of the handlers *)

Lemma length_repeat_count (count : Z) :
  0 <= count -> Z.of_nat (length (repeat NUL (Z.to_nat count))) = count.
Proof. intros H. rewrite repeat_length. lia. Qed.

(** A read at offset 0 with room for the whole text. *)
Lemma read_whole fp p buf count m :
  private_data fp = Some p ->
  12 <= count <= Z.of_nat (length buf) ->
  let v := atomic_read m p in
  exists r,
    dfs_read_file fp buf count 0 m = Some r /\
    ret r = serialized_length v /\ pos r = serialized_length v /\
    mem r = atomic_inc m p /\ served r = serialize v.
Proof.
  intros Hfp Hc v.
  pose proof (serialized_length_bounds v) as Hlen.
  pose proof (read_ok fp p buf count 0 m Hfp (Z.le_refl 0) ltac:(lia)) as Hok.
  cbv zeta in Hok.
  change (logical_value 0 (atomic_read m p)) with v in Hok.
  change (after_read 0 m p) with (atomic_inc m p) in Hok.
  rewrite Z.sub_0_r in Hok.
  destruct (Hok ltac:(lia) ltac:(lia)) as (r & Hr & Hn & Hp & Hm & Hs).
  exists r. split; [exact Hr|].
  rewrite Z.min_r in Hn, Hp by lia.
  repeat (split; [first [assumption | lia]|]).
  rewrite Hs. simpl skipn. apply firstn_all2.
  unfold serialized_length in Hlen. lia.
Qed.

(** X1: what a read from the start handed out, written back as it is,
    puts the counter back to the value that was read. *)
Theorem write_back_restores_value fp p buf count m :
  private_data fp = Some p -> is_int (atomic_read m p) ->
  12 <= count <= Z.of_nat (length buf) ->
  exists r w,
    dfs_read_file fp buf count 0 m = Some r /\
    dfs_write_file fp (served r) (ret r) 0 (mem r) = Some w /\
    ret w = ret r /\
    atomic_read (mem w) p = atomic_read m p /\
    forall q, q <> p -> atomic_read (mem w) q = atomic_read m q.
Proof.
  intros Hfp Hint Hc.
  destruct (read_whole fp p buf count m Hfp Hc) as (r & Hr & Hn & _ & Hm & Hs).
  pose proof (serialized_length_bounds (atomic_read m p)) as Hlen.
  assert (Hlen' : Z.of_nat (length (served r)) = ret r)
    by (rewrite Hs, Hn; reflexivity).
  eexists r, _. split; [exact Hr|].
  split; [apply (write_stored fp p); [exact Hfp | unfold TMPSIZE; lia | lia]|].
  simpl. split; [reflexivity|].
  rewrite <- Hlen', Nat2Z.id, firstn_all, Hs, serialize_roundtrip by assumption.
  rewrite to_int_id by assumption.
  split; [apply atomic_read_set_same|].
  intros q Hq. rewrite atomic_read_set_other, Hm by assumption.
  now apply atomic_read_inc_other.
Qed.

Lemma write_back_restores_value_witness :
  exists r w,
    dfs_read_file (File (Some addr_counter)) (repeat NUL 16) 16 0
      (Atomics (-305) 8) = Some r /\
    dfs_write_file (File (Some addr_counter)) (served r) (ret r) 0 (mem r)
    = Some w /\
    mem w = Atomics (-305) 8.
Proof.
  destruct (write_back_restores_value
              (File (Some addr_counter)) addr_counter (repeat NUL 16) 16
              (Atomics (-305) 8) eq_refl)
    as (r & w & Hr & Hw & _ & Hp & Hq).
  - unfold is_int, INT_MIN, INT_MAX. simpl. lia.
  - simpl. lia.
  - exists r, w. split; [exact Hr|]. split; [exact Hw|].
    specialize (Hq addr_subcounter ltac:(discriminate)).
    destruct (mem w) as [a b]. simpl in Hp, Hq. now subst.
Defined.

(** X2: two open files on the same counter share it: after a write through
    one of them, the next read from the start through the other hands out
    the decimal text of the value written (the lenient conversion of the
    bytes, as an [int]) and leaves the counter one above it. *)
Theorem write_then_read_through_shared_cell fp1 fp2 p buf count buf' count' m :
  private_data fp1 = Some p -> private_data fp2 = Some p ->
  0 <= count < TMPSIZE -> count <= Z.of_nat (length buf) ->
  12 <= count' <= Z.of_nat (length buf') ->
  let value := to_int (lenient_decimal (firstn (Z.to_nat count) buf)) in
  exists w r,
    dfs_write_file fp1 buf count 0 m = Some w /\
    dfs_read_file fp2 buf' count' 0 (mem w) = Some r /\
    served r = serialize value /\
    lenient_decimal (served r) = value /\
    atomic_read (mem r) p = to_int (value + 1).
Proof.
  intros Hfp1 Hfp2 Hc Hb Hc' value.
  eexists. destruct (read_whole fp2 p buf' count'
              (atomic_set m p value) Hfp2 Hc') as (r & Hr & _ & _ & Hm & Hs).
  exists r. split; [apply (write_stored fp1 p); assumption|].
  simpl mem. fold value. rewrite atomic_read_set_same in Hs.
  split; [exact Hr|]. split; [exact Hs|]. split.
  - rewrite Hs. apply serialize_roundtrip. apply to_int_range.
  - rewrite Hm, atomic_read_inc_same, atomic_read_set_same. reflexivity.
Qed.

Lemma write_then_read_through_shared_cell_witness :
  exists w r,
    dfs_write_file (File (Some addr_subcounter)) (str "-17 or so") 9 0
      (Atomics 1 2) = Some w /\
    dfs_read_file (File (Some addr_subcounter)) (repeat NUL 32) 32 0 (mem w)
    = Some r /\
    served r = str "-17" ++ [NL] /\
    atomic_read (mem r) addr_subcounter = -16.
Proof.
  destruct (write_then_read_through_shared_cell
              (File (Some addr_subcounter)) (File (Some addr_subcounter))
              addr_subcounter (str "-17 or so") 9 (repeat NUL 32) 32
              (Atomics 1 2) eq_refl eq_refl)
    as (w & r & Hw & Hr & Hs & _ & Hcell).
  - unfold TMPSIZE. lia.
  - simpl. lia.
  - simpl. lia.
  - exists w, r. repeat (split; [assumption|]). exact Hcell.
Defined.

(** X3: [n] reads from the start, one after the other, hand out the texts
    of [v], [v + 1], ..., [v + n - 1] and leave the counter at [v + n], as
    long as [INT_MAX] is not passed; the other counter is not touched. *)
Theorem consecutive_reads_count_up n fp p count m :
  private_data fp = Some p -> 12 <= count ->
  is_int (atomic_read m p) -> atomic_read m p + Z.of_nat n <= INT_MAX ->
  exists m',
    read_times n fp count m =
    Some (map (fun i => serialize (atomic_read m p + Z.of_nat i)) (seq 0 n), m')
    /\ atomic_read m' p = atomic_read m p + Z.of_nat n
    /\ forall q, q <> p -> atomic_read m' q = atomic_read m q.
Proof.
  intros Hfp Hc. revert m.
  induction n as [|n IH]; intros m Hint Hmax.
  - exists m. simpl. rewrite Z.add_0_r. repeat split.
  - destruct (read_whole fp p (repeat NUL (Z.to_nat count)) count m Hfp)
      as (r & Hr & _ & _ & Hm & Hs);
      [rewrite length_repeat_count; lia|].
    assert (Hnext : atomic_read (mem r) p = atomic_read m p + 1).
    { rewrite Hm, atomic_read_inc_same. apply to_int_id.
      unfold is_int, INT_MIN, INT_MAX in *. lia. }
    destruct (IH (mem r)) as (m' & Hrec & Hcell & Hframe).
    { rewrite Hnext. unfold is_int, INT_MIN, INT_MAX in *. lia. }
    { rewrite Hnext. lia. }
    exists m'. split; [|split].
    + cbn [read_times]. rewrite Hr, Hrec, Hs. cbn [seq map].
      rewrite Z.add_0_r. do 2 f_equal. f_equal.
      rewrite <- seq_shift, map_map. apply map_ext. intros i.
      rewrite Hnext. f_equal. lia.
    + rewrite Hcell, Hnext. lia.
    + intros q Hq. rewrite Hframe, Hm by assumption.
      now apply atomic_read_inc_other.
Qed.

Lemma consecutive_reads_count_up_witness :
  exists m',
    read_times 3 (File (Some addr_counter)) 12 (Atomics 9 0) =
    Some ([str "9" ++ [NL]; str "10" ++ [NL]; str "11" ++ [NL]], m') /\
    atomic_read m' addr_counter = 12.
Proof.
  destruct (consecutive_reads_count_up 3 (File (Some addr_counter))
              addr_counter 12 (Atomics 9 0) eq_refl)
    as (m' & Hrun & Hcell & _).
  - lia.
  - unfold is_int, INT_MIN, INT_MAX. simpl. lia.
  - unfold INT_MAX. simpl. lia.
  - exists m'. split; [exact Hrun|exact Hcell].
Defined.

(** After the first call of a read in chunks: the remaining calls hand out
    the rest of the same text and stop at its end. *)
Lemma read_to_eof_rest fuel fp p count offset m v :
  private_data fp = Some p -> 0 < count ->
  is_int v -> atomic_read m p = to_int (v + 1) ->
  0 < offset <= serialized_length v ->
  (Z.to_nat (serialized_length v - offset) < fuel)%nat ->
  read_to_eof fuel fp count offset m =
  Some (skipn (Z.to_nat offset) (serialize v), serialized_length v, m).
Proof.
  intros Hfp Hc Hint Hcell. revert offset.
  induction fuel as [|fuel IH]; intros offset Hoff Hfuel; [lia|].
  assert (Hlv : logical_value offset (atomic_read m p) = v).
  { unfold logical_value. destruct (Z.gtb_spec offset 0); [|lia].
    rewrite Hcell. now apply to_int_succ_pred. }
  assert (Har : after_read offset m p = m).
  { unfold after_read. destruct (Z.gtb_spec offset 0); [reflexivity|lia]. }
  pose proof (read_ok fp p (repeat NUL (Z.to_nat count)) count offset m Hfp
                ltac:(lia) ltac:(lia)) as Hok.
  cbv zeta in Hok. rewrite Hlv, Har, length_repeat_count in Hok by lia.
  destruct (Hok ltac:(lia) ltac:(lia)) as (r & Hr & Hn & Hp & Hm & Hs).
  cbn [read_to_eof]. rewrite Hr.
  set (len := serialized_length v) in *.
  destruct (Z.leb_spec (ret r) 0) as [Hz|Hnz].
  - assert (offset = len) by lia. subst offset.
    rewrite Hp, Hm. replace (Z.min count (len - len)) with 0 by lia.
    rewrite Z.add_0_r. do 3 f_equal.
    symmetry. apply skipn_all2. unfold len, serialized_length. lia.
  - rewrite Hp, Hm, IH by lia. do 3 f_equal.
    rewrite Hs.
    set (tail := skipn (Z.to_nat offset) (serialize v)).
    assert (Htail : Z.of_nat (length tail) = len - offset).
    { unfold tail, len, serialized_length in *. rewrite length_skipn. lia. }
    rewrite <- (firstn_min_length tail count), Htail.
    replace (skipn (Z.to_nat (offset + Z.min count (len - offset)))
               (serialize v))
      with (skipn (Z.to_nat (Z.min count (len - offset))) tail).
    + apply firstn_skipn.
    + unfold tail. rewrite skipn_skipn. f_equal. lia.
Qed.

(** X4: reading the file from the start to its end in chunks of any
    positive size hands out, all in all, exactly the decimal text of the
    value and the newline, ends at the length of that text, and increments
    the counter once. *)
Theorem chunked_read_delivers_text_once fuel fp p count m :
  private_data fp = Some p -> 0 < count ->
  is_int (atomic_read m p) -> (13 <= fuel)%nat ->
  let v := atomic_read m p in
  read_to_eof fuel fp count 0 m =
  Some (serialize v, serialized_length v, atomic_inc m p).
Proof.
  intros Hfp Hc Hint Hfuel v.
  pose proof (serialized_length_bounds v) as Hlen.
  destruct fuel as [|fuel]; [lia|].
  pose proof (read_ok fp p (repeat NUL (Z.to_nat count)) count 0 m Hfp
                (Z.le_refl 0) ltac:(lia)) as Hok.
  cbv zeta in Hok.
  change (logical_value 0 (atomic_read m p)) with v in Hok.
  change (after_read 0 m p) with (atomic_inc m p) in Hok.
  rewrite Z.sub_0_r, length_repeat_count in Hok by lia.
  destruct (Hok ltac:(lia) ltac:(lia)) as (r & Hr & Hn & Hp & Hm & Hs).
  cbn [read_to_eof]. rewrite Hr.
  destruct (Z.leb_spec (ret r) 0) as [Hz|Hnz]; [lia|].
  rewrite (read_to_eof_rest fuel fp p count (pos r) (mem r) v); try assumption.
  - rewrite Hm, Hs, Hp. simpl skipn. do 3 f_equal.
    rewrite <- (firstn_min_length (serialize v) count).
    fold (serialized_length v). rewrite ?Z.add_0_l. apply firstn_skipn.
  - rewrite Hm. apply atomic_read_inc_same.
  - lia.
  - lia.
Qed.

Lemma chunked_read_delivers_text_once_witness :
  read_to_eof 13 (File (Some addr_counter)) 1 0 (Atomics 2026 0) =
  Some (str "2026" ++ [NL], 5, Atomics 2027 0).
Proof.
  apply (chunked_read_delivers_text_once 13 (File (Some addr_counter))
           addr_counter 1 (Atomics 2026 0) eq_refl).
  - lia.
  - unfold is_int, INT_MIN, INT_MAX. simpl. lia.
  - lia.
Defined.

(** The caller's buffer after a read that fails: as much as was accessible
    has been overwritten, nothing beyond. *)
Lemma read_fault_buffer fp p buf count offset m :
  private_data fp = Some p -> 0 <= offset -> 0 <= count ->
  let v := logical_value offset (atomic_read m p) in
  let n := Z.min count (serialized_length v - offset) in
  offset <= serialized_length v -> Z.of_nat (length buf) < n ->
  dfs_read_file fp buf count offset m =
  Some (RW (- EFAULT)
          (firstn (length buf)
             (firstn (Z.to_nat n) (skipn (Z.to_nat offset) (serialize v))))
          offset (after_read offset m p)).
Proof.
  intros Hfp Hoff Hcount v n Hlen Hbuf.
  rewrite (read_unfold fp p) by assumption.
  rewrite read_source by assumption.
  fold v. fold n.
  destruct (Z.gtb_spec offset (serialized_length v)); [lia|].
  unfold copy_to_user. rewrite Z.min_r by lia.
  destruct (Z.eqb_spec (n - Z.of_nat (length buf)) 0); [lia|].
  simpl. rewrite Nat2Z.id, skipn_all, app_nil_r. reflexivity.
Qed.

(** X5: a read never hands out more than the [count] bytes asked for, nor
    more than 12; it keeps the size of the caller's buffer, and when it
    succeeds the bytes after the ones returned are as they were. *)
Theorem read_stays_within_request fp p buf count offset m :
  private_data fp = Some p -> 0 <= offset -> 0 <= count ->
  exists r,
    dfs_read_file fp buf count offset m = Some r /\
    length (ubuf r) = length buf /\
    ret r <= count /\ ret r <= 12 /\
    (ret r = - EFAULT \/
     0 <= ret r /\
     skipn (Z.to_nat (ret r)) (ubuf r) = skipn (Z.to_nat (ret r)) buf).
Proof.
  intros Hfp Hoff Hcount.
  pose proof (read_copied fp p buf count offset m Hfp Hoff Hcount) as Hok.
  pose proof (read_fault_buffer fp p buf count offset m Hfp Hoff Hcount)
    as Hfault.
  pose proof (read_past_end fp p buf count offset m Hfp Hoff) as Hend.
  cbv zeta in Hfault.
  set (v := logical_value offset (atomic_read m p)) in *.
  pose proof (serialized_length_bounds v) as Hlen.
  set (len := serialized_length v) in *.
  set (tail := skipn (Z.to_nat offset) (serialize v)) in *.
  assert (Htail : offset <= len -> Z.of_nat (length tail) = len - offset).
  { intros H. unfold tail, len, serialized_length in *.
    rewrite length_skipn. lia. }
  destruct (Z.lt_ge_cases len offset) as [Hpast|Hin].
  - eexists. split; [apply Hend; exact Hpast|]. simpl.
    repeat (split; [first [reflexivity | lia]|]). right. split; [lia|reflexivity].
  - specialize (Htail Hin). set (n := Z.min count (len - offset)) in *.
    destruct (Z.le_gt_cases n (Z.of_nat (length buf))) as [Hb|Hb].
    + eexists. split; [apply Hok; assumption|]. simpl.
      assert (Hfirst : length (firstn (Z.to_nat n) tail) = Z.to_nat n)
        by (rewrite length_firstn; lia).
      split; [rewrite length_app, Hfirst, length_skipn; lia|].
      split; [lia|]. split; [lia|]. right. split; [lia|].
      rewrite skipn_app, Hfirst, Nat.sub_diag.
      rewrite skipn_all2 by lia. reflexivity.
    + eexists. split; [apply Hfault; assumption|]. simpl.
      split; [rewrite !length_firstn; lia|].
      unfold EFAULT. split; [lia|]. split; [lia|]. now left.
Qed.

Lemma read_stays_within_request_witness :
  exists r,
    dfs_read_file (File (Some addr_counter)) (str "XXXXXXXX") 6 0
      (Atomics 314 0) = Some r /\
    ubuf r = str "314" ++ [NL] ++ str "XXXX".
Proof.
  destruct (read_stays_within_request (File (Some addr_counter)) addr_counter
              (str "XXXXXXXX") 6 0 (Atomics 314 0) eq_refl)
    as (r & Hr & _); [lia | lia |].
  exists r. split; [exact Hr|].
  vm_compute in Hr. injection Hr as <-. reflexivity.
Defined.

(** X6: a write whose bytes cannot all be read from the caller fails with
    [EFAULT] and stores nothing, not even the bytes that could be read; the
    offset and length tests come first, so that a write at another offset
    fails with [EINVAL] whatever the buffer. *)
Theorem write_copy_fault_stores_nothing fp buf count offset m :
  0 <= count < TMPSIZE -> Z.of_nat (length buf) < count ->
  dfs_write_file fp buf count offset m =
  Some (RW (if offset =? 0 then - EFAULT else - EINVAL) buf offset m).
Proof.
  intros Hc Hb. destruct (Z.eqb_spec offset 0) as [->|Hne].
  - now apply write_fault.
  - apply write_rejected. now left.
Qed.

Lemma write_copy_fault_stores_nothing_witness :
  dfs_write_file (File (Some addr_counter)) (str "12") 5 0 (Atomics 3 4) =
  Some (RW (- EFAULT) (str "12") 0 (Atomics 3 4)).
Proof.
  apply (write_copy_fault_stores_nothing (File (Some addr_counter))
           (str "12") 5 0 (Atomics 3 4)).
  - unfold TMPSIZE. lia.
  - simpl. lia.
Defined.

Lemma lenient_decimal_after_sign s :
  take_digits (after_sign s) = [] -> lenient_decimal s = 0.
Proof.
  destruct s as [|c s]; [reflexivity|].
  unfold lenient_decimal, after_sign.
  destruct (Ascii.eqb c MINUS); intros ->; reflexivity.
Qed.

(** X7: a write whose bytes do not start with a digit, after an optional
    minus sign, sets the counter to 0 and is reported as written in full.
    This is so for an empty write and for bytes that start with a blank or
    a plus sign. *)
Theorem write_without_leading_digit_stores_zero fp p buf count m :
  private_data fp = Some p ->
  0 <= count < TMPSIZE -> count <= Z.of_nat (length buf) ->
  take_digits (after_sign (firstn (Z.to_nat count) buf)) = [] ->
  exists r,
    dfs_write_file fp buf count 0 m = Some r /\
    ret r = count /\ atomic_read (mem r) p = 0.
Proof.
  intros Hfp Hc Hb Hnodigit.
  eexists. split; [apply (write_stored fp p); assumption|].
  simpl. split; [reflexivity|].
  rewrite atomic_read_set_same, lenient_decimal_after_sign by assumption.
  reflexivity.
Qed.

Lemma write_without_leading_digit_stores_zero_witness :
  (exists r,
     dfs_write_file (File (Some addr_counter)) (str " 42") 3 0 (Atomics 7 9)
     = Some r /\ ret r = 3 /\ atomic_read (mem r) addr_counter = 0) /\
  (exists r,
     dfs_write_file (File (Some addr_counter)) [] 0 0 (Atomics 7 9)
     = Some r /\ ret r = 0 /\ atomic_read (mem r) addr_counter = 0).
Proof.
  split.
  - apply (write_without_leading_digit_stores_zero (File (Some addr_counter))
             addr_counter (str " 42") 3 (Atomics 7 9) eq_refl);
      [unfold TMPSIZE; lia | simpl; lia | reflexivity].
  - apply (write_without_leading_digit_stores_zero (File (Some addr_counter))
             addr_counter [] 0 (Atomics 7 9) eq_refl);
      [unfold TMPSIZE; lia | simpl; lia | reflexivity].
Defined.

(** What a request does to the cell of its file, and what it returns,
    depend on that cell alone. *)
Lemma serve_depends_on_own_cell q m m' p :
  well_formed q -> private_data (handle q) = Some p ->
  atomic_read m p = atomic_read m' p ->
  exists r r',
    serve q m = Some r /\ serve q m' = Some r' /\
    ret r = ret r' /\ ubuf r = ubuf r' /\ pos r = pos r' /\
    atomic_read (mem r) p = atomic_read (mem r') p.
Proof.
  intros [_ Hrange] Hfp Hsame.
  assert (Hafter : forall offset,
            atomic_read (after_read offset m p) p
            = atomic_read (after_read offset m' p) p).
  { intros offset. unfold after_read. destruct (offset >? 0); [exact Hsame|].
    rewrite !atomic_read_inc_same. now rewrite Hsame. }
  destruct q as [fp buf count offset|fp buf count offset]; simpl in *;
    destruct Hrange as [Hoff Hcount].
  - pose proof (read_copied fp p buf count offset) as Hok.
    pose proof (read_fault_buffer fp p buf count offset) as Hfault.
    pose proof (read_past_end fp p buf count offset) as Hend.
    cbv zeta in Hfault.
    pose proof (Hok m Hfp Hoff Hcount) as Hok1.
    pose proof (Hok m' Hfp Hoff Hcount) as Hok2.
    pose proof (Hfault m Hfp Hoff Hcount) as Hfault1.
    pose proof (Hfault m' Hfp Hoff Hcount) as Hfault2.
    pose proof (Hend m Hfp Hoff) as Hend1.
    pose proof (Hend m' Hfp Hoff) as Hend2.
    rewrite <- Hsame in Hok2, Hfault2, Hend2.
    set (len := serialized_length _) in *.
    destruct (Z.lt_ge_cases len offset) as [Hpast|Hin].
    + do 2 eexists. split; [apply Hend1; exact Hpast|].
      split; [apply Hend2; exact Hpast|].
      simpl. repeat (split; [reflexivity|]). apply Hafter.
    + destruct (Z.le_gt_cases (Z.min count (len - offset))
                  (Z.of_nat (length buf))) as [Hb|Hb].
      * do 2 eexists. split; [apply Hok1; assumption|].
        split; [apply Hok2; assumption|].
        simpl. repeat (split; [reflexivity|]). apply Hafter.
      * do 2 eexists. split; [apply Hfault1; assumption|].
        split; [apply Hfault2; assumption|].
        simpl. repeat (split; [reflexivity|]). apply Hafter.
  - destruct (Z.eq_dec offset 0) as [->|Hne].
    + destruct (Z.lt_ge_cases count TMPSIZE) as [Hlt|Hge].
      * destruct (Z.le_gt_cases count (Z.of_nat (length buf))) as [Hb|Hb].
        -- do 2 eexists.
           split; [apply (write_stored fp p); auto; lia|].
           split; [apply (write_stored fp p); auto; lia|].
           simpl. repeat (split; [reflexivity|]).
           now rewrite !atomic_read_set_same.
        -- do 2 eexists. split; [apply write_fault; lia|].
           split; [apply write_fault; lia|].
           simpl. repeat (split; [reflexivity|]). exact Hsame.
      * do 2 eexists. split; [apply write_rejected; right; lia|].
        split; [apply write_rejected; right; lia|].
        simpl. repeat (split; [reflexivity|]). exact Hsame.
    + do 2 eexists. split; [apply write_rejected; left; exact Hne|].
      split; [apply write_rejected; left; exact Hne|].
      simpl. repeat (split; [reflexivity|]). exact Hsame.
Qed.

Lemma bound_to_true p q :
  bound_to p q = true -> private_data (handle q) = Some p.
Proof.
  unfold bound_to. destruct (private_data (handle q)) as [p'|]; [|discriminate].
  destruct p', p; simpl; intros H; try discriminate; reflexivity.
Qed.

Lemma bound_to_false p q :
  bound_to p q = false -> private_data (handle q) <> Some p.
Proof.
  unfold bound_to. intros H E. rewrite E in H.
  destruct p; discriminate.
Qed.

Lemma serve_all_own_cell qs m m' p :
  Forall well_formed qs -> atomic_read m p = atomic_read m' p ->
  exists m1 m2,
    serve_all qs m = Some m1 /\
    serve_all (filter (bound_to p) qs) m' = Some m2 /\
    atomic_read m1 p = atomic_read m2 p.
Proof.
  intros Hwf. revert m m'.
  induction Hwf as [|q qs Hq _ IH]; intros m m' Hsame.
  - exists m, m'. repeat split. exact Hsame.
  - cbn [filter serve_all]. destruct (bound_to p q) eqn:Hb.
    + destruct (serve_depends_on_own_cell q m m' p Hq (bound_to_true p q Hb)
                  Hsame) as (r & r' & Hr & Hr' & _ & _ & _ & Hcell).
      destruct (IH (mem r) (mem r') Hcell) as (m1 & m2 & H1 & H2 & H12).
      exists m1, m2. cbn [serve_all]. rewrite Hr, Hr'. auto.
    + destruct (serve_frame q m p Hq (bound_to_false p q Hb))
        as (r & Hr & Hkeep).
      destruct (IH (mem r) m' ltac:(congruence)) as (m1 & m2 & H1 & H2 & H12).
      exists m1, m2. rewrite Hr. auto.
Qed.

(** X8: the value a counter ends with after any sequence of reads and
    writes is the one it ends with when only the requests through files
    bound to that counter are made: traffic on the other file never shows. *)
Theorem only_own_requests_matter qs m p :
  Forall well_formed qs ->
  exists m1 m2,
    serve_all qs m = Some m1 /\
    serve_all (filter (bound_to p) qs) m = Some m2 /\
    atomic_read m1 p = atomic_read m2 p.
Proof.
  intros Hwf. now apply serve_all_own_cell.
Qed.

Lemma only_own_requests_matter_witness :
  exists m1 m2,
    serve_all
      [ Read (File (Some addr_counter)) (repeat NUL 4) 4 0;
        Write (File (Some addr_subcounter)) (str "500") 3 0;
        Read (File (Some addr_subcounter)) (repeat NUL 4) 4 0;
        Read (File (Some addr_counter)) (repeat NUL 4) 4 0 ]
      (Atomics 1 2) = Some m1 /\
    serve_all
      [ Read (File (Some addr_counter)) (repeat NUL 4) 4 0;
        Read (File (Some addr_counter)) (repeat NUL 4) 4 0 ]
      (Atomics 1 2) = Some m2 /\
    atomic_read m1 addr_counter = atomic_read m2 addr_counter.
Proof.
  apply (only_own_requests_matter
           [ Read (File (Some addr_counter)) (repeat NUL 4) 4 0;
             Write (File (Some addr_subcounter)) (str "500") 3 0;
             Read (File (Some addr_subcounter)) (repeat NUL 4) 4 0;
             Read (File (Some addr_counter)) (repeat NUL 4) 4 0 ]
           (Atomics 1 2) addr_counter).
  repeat constructor; simpl; try discriminate; lia.
Defined.



(** * Further properties of the mount *)

(** What [dfs_fill_super] leaves once the root is in place, for each way the
    six allocations below the root can go. *)
Lemma mount_cases rest ino m :
  exists k',
    dfs_fill_super (fresh_kernel (true :: true :: rest) ino m) = Some (0, k') /\
    atoms k' = Atomics 0 0 /\
    published_paths k' = expected_paths rest /\
    inodes_consistent k' = true /\
    tree_ok k' = true /\
    no_half_built k' = true.
Proof.
  next_outcomes 6%nat rest;
    (eexists; split; [vm_compute; reflexivity|];
     do 4 (split; [vm_compute; reflexivity|]); vm_compute; reflexivity).
Qed.

Lemma nth_error_app_last {A : Type} (l : list A) (x : A) :
  nth_error (l ++ [x]) (length l) = Some x.
Proof. rewrite nth_error_app2, Nat.sub_diag by lia. reflexivity. Qed.

Lemma set_slot_app_last {A : Type} (l : list A) (x y : A) :
  set_slot (length l) y (l ++ [x]) = l ++ [y].
Proof. induction l as [|a l IH]; simpl; [reflexivity|now rewrite IH]. Qed.

(** Running a store through the pointer to the inode made last. *)
Lemma inode_store_last f o n l x d s a :
  inode_store (Some (length l)) f (Kernel o n (l ++ [Some x]) d s a) =
  Some (tt, Kernel o n (l ++ [Some (f x)]) d s a).
Proof.
  unfold inode_store. cbn [inodes]. rewrite nth_error_app_last.
  unfold set_inodes. cbn [outcomes last_ino inodes dentries sb atoms].
  now rewrite set_slot_app_last.
Qed.

Lemma bind_step {A B : Type} (c : K A) (f : A -> K B) k a k' :
  c k = Some (a, k') -> bind c f k = f a k'.
Proof. unfold bind. now intros ->. Qed.

(** One step of a computation whose first action is known. *)
Ltac kstep tac := erewrite bind_step by tac; cbv beta iota.

Lemma new_inode_fails k rest :
  outcomes k = false :: rest -> new_inode k = Some (None, set_outcomes k rest).
Proof. intros E. unfold new_inode, bind, kmalloc. now rewrite E. Qed.

Lemma new_inode_succeeds o n l d s a :
  hd true o = true ->
  new_inode (Kernel o n l d s a) =
  Some (Some (length l), Kernel (tl o) n (l ++ [Some blank_inode]) d s a).
Proof.
  intros H. unfold new_inode, bind, kmalloc. cbn [outcomes].
  destruct o as [|[|] o]; cbn in H; try discriminate H; reflexivity.
Qed.

Lemma make_inode_fails k mode fops rest :
  outcomes k = false :: rest ->
  dummyfs_make_inode mode fops k = Some (None, set_outcomes k rest).
Proof.
  intros E. unfold dummyfs_make_inode.
  kstep ltac:(apply new_inode_fails; exact E). reflexivity.
Qed.

Lemma make_inode_succeeds k mode fops :
  hd true (outcomes k) = true ->
  dummyfs_make_inode mode fops k =
  Some (Some (length (inodes k)),
        Kernel (tl (outcomes k)) (last_ino k + 1)
          (inodes k ++
           [Some (Inode (mode mod 2 ^ 16) (Some fops) None (last_ino k + 1) 1
                    None)])
          (dentries k) (sb k) (atoms k)).
Proof.
  intros H. destruct k as [o n l d s a]. cbn [outcomes] in H.
  cbn [outcomes last_ino inodes dentries sb atoms].
  unfold dummyfs_make_inode.
  kstep ltac:(apply new_inode_succeeds; exact H).
  do 2 kstep ltac:(apply inode_store_last).
  kstep ltac:(reflexivity).
  kstep ltac:(apply inode_store_last).
  reflexivity.
Qed.

Lemma d_alloc_name_fails k parent name rest :
  outcomes k = false :: rest ->
  d_alloc_name parent name k = Some (None, set_outcomes k rest).
Proof. intros E. unfold d_alloc_name, bind, kmalloc. now rewrite E. Qed.

Lemma d_alloc_name_succeeds o n l d s a parent name :
  hd true o = true ->
  d_alloc_name parent name (Kernel o n l d s a) =
  Some (Some (length d),
        Kernel (tl o) n l (d ++ [Some (Dentry name (Some parent) None)]) s a).
Proof.
  intros H. unfold d_alloc_name, bind, kmalloc. cbn [outcomes].
  destruct o as [|[|] o]; cbn in H; try discriminate H; reflexivity.
Qed.

Lemma dput_last o n l d s a x :
  dput (Some (length d)) (Kernel o n l (d ++ [Some x]) s a) =
  Some (tt, Kernel o n l (d ++ [None]) s a).
Proof.
  unfold dput. cbn [dentries]. rewrite nth_error_app_last.
  unfold set_dentries. cbn [outcomes last_ino inodes dentries sb atoms].
  now rewrite set_slot_app_last.
Qed.

Lemma d_add_last o n l d s a name parent i j :
  d_add (length d) j (Kernel o n l (d ++ [Some (Dentry name parent i)]) s a) =
  Some (tt, Kernel o n l (d ++ [Some (Dentry name parent j)]) s a).
Proof.
  unfold d_add. cbn [dentries]. rewrite nth_error_app_last.
  unfold set_dentries.
  cbn [outcomes last_ino inodes dentries sb atoms d_name d_parent].
  now rewrite set_slot_app_last.
Qed.

(** The three ways [dummyfs_create_file] can go. *)
Lemma create_file_no_dentry k dir name counter rest :
  outcomes k = false :: rest ->
  dummyfs_create_file dir name counter k = Some (None, set_outcomes k rest).
Proof.
  intros E. unfold dummyfs_create_file.
  kstep ltac:(apply d_alloc_name_fails; exact E). reflexivity.
Qed.

Lemma create_file_no_inode n l d s a dir name counter rest :
  dummyfs_create_file dir name counter (Kernel (true :: false :: rest) n l d s a)
  = Some (None, Kernel rest n l (d ++ [None]) s a).
Proof.
  unfold dummyfs_create_file.
  kstep ltac:(apply d_alloc_name_succeeds; reflexivity).
  kstep ltac:(apply make_inode_fails; reflexivity).
  kstep ltac:(apply dput_last). reflexivity.
Qed.

Lemma create_file_built o n l d s a dir name counter :
  hd true o = true -> hd true (tl o) = true ->
  dummyfs_create_file dir name counter (Kernel o n l d s a) =
  Some (Some (length d),
        Kernel (tl (tl o)) (n + 1)
          (l ++ [Some (Inode (Z.lor S_IFREG (octal [6; 4; 4]) mod 2 ^ 16)
                         (Some dummyfs_file_ops) None (n + 1) 1
                         (Some counter))])
          (d ++ [Some (Dentry name (Some dir) (Some (length l)))]) s a).
Proof.
  intros H1 H2. unfold dummyfs_create_file.
  kstep ltac:(apply d_alloc_name_succeeds; exact H1).
  kstep ltac:(apply make_inode_succeeds; exact H2).
  cbn [outcomes last_ino inodes dentries sb atoms].
  kstep ltac:(apply inode_store_last).
  kstep ltac:(apply d_add_last).
  reflexivity.
Qed.

(** The same for [dummyfs_create_dir]. *)
Lemma create_dir_no_dentry k parent name rest :
  outcomes k = false :: rest ->
  dummyfs_create_dir parent name k = Some (None, set_outcomes k rest).
Proof.
  intros E. unfold dummyfs_create_dir.
  kstep ltac:(apply d_alloc_name_fails; exact E). reflexivity.
Qed.

Lemma create_dir_no_inode n l d s a parent name rest :
  dummyfs_create_dir parent name (Kernel (true :: false :: rest) n l d s a)
  = Some (None, Kernel rest n l (d ++ [None]) s a).
Proof.
  unfold dummyfs_create_dir.
  kstep ltac:(apply d_alloc_name_succeeds; reflexivity).
  kstep ltac:(apply make_inode_fails; reflexivity).
  kstep ltac:(apply dput_last). reflexivity.
Qed.

Lemma create_dir_built o n l d s a parent name :
  hd true o = true -> hd true (tl o) = true ->
  dummyfs_create_dir parent name (Kernel o n l d s a) =
  Some (Some (length d),
        Kernel (tl (tl o)) (n + 1)
          (l ++ [Some (Inode (Z.lor S_IFDIR (octal [7; 5; 5]) mod 2 ^ 16)
                         (Some simple_dir_operations)
                         (Some simple_dir_inode_operations) (n + 1) 1 None)])
          (d ++ [Some (Dentry name (Some parent) (Some (length l)))]) s a).
Proof.
  intros H1 H2. unfold dummyfs_create_dir.
  kstep ltac:(apply d_alloc_name_succeeds; exact H1).
  kstep ltac:(apply make_inode_succeeds; exact H2).
  cbn [outcomes last_ino inodes dentries sb atoms].
  kstep ltac:(apply inode_store_last).
  kstep ltac:(apply d_add_last).
  reflexivity.
Qed.

(** Children and nodes when a slot is added to the dentry table. *)
Lemma children_from_app parent i l l' :
  children_from parent i (l ++ l') =
  children_from parent i l ++ children_from parent (i + length l) l'.
Proof.
  revert i. induction l as [|x l IH]; intros i.
  - simpl. now rewrite Nat.add_0_r.
  - cbn [app children_from length]. rewrite IH, Nat.add_succ_r.
    destruct x as [[name [p|] [j|]]|]; try reflexivity.
    destruct (Nat.eqb p parent); reflexivity.
Qed.

Lemma node_at_freed_slot o n l d s a o' n' i :
  node_at (Kernel o' n' l (d ++ [None]) s a) i = node_at (Kernel o n l d s a) i.
Proof.
  unfold node_at. cbn [dentries inodes].
  destruct (Nat.lt_ge_cases i (length d)) as [Hlt|Hge].
  - now rewrite nth_error_app1.
  - rewrite (proj2 (nth_error_None d i)) by lia.
    destruct (Nat.eq_dec i (length d)) as [->|Hne].
    + now rewrite nth_error_app_last.
    + rewrite (proj2 (nth_error_None (d ++ [None]) i)); [reflexivity|].
      rewrite length_app. simpl. lia.
Qed.

(** X9: [dummyfs_make_inode] returns NULL exactly when the allocation
    fails, and has then changed nothing; otherwise it returns a pointer to a
    new inode that has the mode asked for (its low 16 bits), the file
    operations asked for, one link, no cell and the next inode number.  In
    both cases the inodes there were, the dentries, the superblock and the
    counters are as before. *)
Theorem make_inode_new_or_null k mode fops :
  exists res k',
    dummyfs_make_inode mode fops k = Some (res, k') /\
    outcomes k' = tl (outcomes k) /\
    dentries k' = dentries k /\ sb k' = sb k /\ atoms k' = atoms k /\
    (hd true (outcomes k) = false ->
     res = None /\ inodes k' = inodes k /\ last_ino k' = last_ino k) /\
    (hd true (outcomes k) = true ->
     res = Some (length (inodes k)) /\
     last_ino k' = last_ino k + 1 /\
     inodes k' =
       inodes k ++
       [Some (Inode (mode mod 2 ^ 16) (Some fops) None (last_ino k + 1) 1
                None)]).
Proof.
  destruct (hd true (outcomes k)) eqn:H.
  - do 2 eexists. split; [apply make_inode_succeeds; exact H|].
    cbn [outcomes last_ino inodes dentries sb atoms].
    repeat (split; [reflexivity|]). split; [discriminate|].
    intros _. repeat split.
  - destruct (outcomes k) as [|[|] rest] eqn:E; try discriminate H.
    do 2 eexists. split; [apply make_inode_fails; exact E|].
    unfold set_outcomes. cbn [outcomes last_ino inodes dentries sb atoms tl].
    repeat (split; [reflexivity|]). split; [|discriminate].
    intros _. repeat split.
Qed.

Lemma make_inode_new_or_null_witness :
  exists k',
    dummyfs_make_inode (Z.lor S_IFREG (octal [6; 4; 4])) dummyfs_file_ops
      (fresh_kernel [true; false] 41 (Atomics 0 0))
    = Some (Some 0%nat, k') /\
    inodes k' = [Some (Inode 33188 (Some dummyfs_file_ops) None 42 1 None)].
Proof.
  destruct (make_inode_new_or_null
              (fresh_kernel [true; false] 41 (Atomics 0 0))
              (Z.lor S_IFREG (octal [6; 4; 4])) dummyfs_file_ops)
    as (res & k' & Hrun & _ & _ & _ & _ & _ & Hok).
  destruct (Hok eq_refl) as (-> & _ & Hinodes).
  exists k'. split; [exact Hrun|exact Hinodes].
Defined.

Lemma children_add_child o n l d s a o' n' l' parent name j dir :
  children
    (Kernel o' n' l' (d ++ [Some (Dentry name (Some parent) (Some j))]) s a) dir
  = children (Kernel o n l d s a) dir ++
    (if Nat.eqb parent dir then [(name, length d)] else []).
Proof.
  unfold children. cbn [dentries]. rewrite children_from_app.
  cbn [children_from Nat.add]. reflexivity.
Qed.

Lemma children_freed_slot o n l d s a o' n' l' dir :
  children (Kernel o' n' l' (d ++ [None]) s a) dir
  = children (Kernel o n l d s a) dir.
Proof.
  unfold children. cbn [dentries]. rewrite children_from_app.
  cbn [children_from]. apply app_nil_r.
Qed.

(** X10: [dummyfs_create_file] does all or nothing.  When the allocation
    of its dentry or of its inode fails it returns NULL and no lookup and no
    inode has changed (the dentry taken before a failed inode allocation is
    given back); otherwise it returns the new dentry, which is then the last
    child of [dir] under the name given and leads to a regular file of mode
    0644 bound to the counter given, while the children of every other dentry
    are as before. *)
Theorem create_file_all_or_nothing k dir name counter ok rest :
  node_allocated (outcomes k) = (ok, rest) ->
  exists res k',
    dummyfs_create_file dir name counter k = Some (res, k') /\
    outcomes k' = rest /\ sb k' = sb k /\ atoms k' = atoms k /\
    if ok
    then
      res = Some (length (dentries k)) /\
      children k' dir = children k dir ++ [(name, length (dentries k))] /\
      (forall d, d <> dir -> children k' d = children k d) /\
      exists x,
        node_at k' (length (dentries k)) = Some x /\ counter_file x counter
    else
      res = None /\ inodes k' = inodes k /\ last_ino k' = last_ino k /\
      (forall d, children k' d = children k d) /\
      (forall d, node_at k' d = node_at k d).
Proof.
  destruct k as [o n l d s a]. cbn [outcomes sb atoms dentries inodes last_ino].
  intros Halloc.
  assert (Hbuilt : hd true o = true -> hd true (tl o) = true ->
                   rest = tl (tl o) -> ok = true ->
                   exists res k',
                     dummyfs_create_file dir name counter (Kernel o n l d s a)
                     = Some (res, k') /\
                     outcomes k' = rest /\ sb k' = s /\ atoms k' = a /\
                     res = Some (length d) /\
                     children k' dir =
                       children (Kernel o n l d s a) dir ++ [(name, length d)] /\
                     (forall d', d' <> dir ->
                        children k' d' = children (Kernel o n l d s a) d') /\
                     exists x,
                       node_at k' (length d) = Some x /\ counter_file x counter).
  { intros H1 H2 -> ->. do 2 eexists.
    split; [apply create_file_built; assumption|].
    cbn [outcomes sb atoms].
    do 4 (split; [reflexivity|]). split; [|split].
    - rewrite (children_add_child o n l), Nat.eqb_refl. reflexivity.
    - intros d' Hd'. rewrite (children_add_child o n l).
      destruct (Nat.eqb_spec dir d'); [congruence|]. apply app_nil_r.
    - eexists. split.
      + unfold node_at. cbn [dentries inodes].
        rewrite !nth_error_app_last. reflexivity.
      + repeat split; vm_compute; reflexivity. }
  destruct o as [|[|] [|[|] o]]; cbn in Halloc;
    injection Halloc as <- <-;
    try (destruct Hbuilt as (res & k' & Hrun & Ho & Hs & Ha & Hrest);
         try reflexivity;
         exists res, k'; repeat (split; [assumption|]); exact Hrest).
  - do 2 eexists. split; [apply create_file_no_inode|].
    cbn [outcomes sb atoms inodes last_ino].
    repeat (split; [reflexivity|]). split.
    + intros d'. apply children_freed_slot.
    + intros d'. apply node_at_freed_slot.
  - do 2 eexists. split; [apply create_file_no_dentry; reflexivity|].
    unfold set_outcomes. cbn [outcomes sb atoms inodes last_ino dentries].
    repeat (split; [reflexivity|]). split; reflexivity.
  - do 2 eexists. split; [apply create_file_no_dentry; reflexivity|].
    unfold set_outcomes. cbn [outcomes sb atoms inodes last_ino dentries].
    repeat (split; [reflexivity|]). split; reflexivity.
  - do 2 eexists. split; [apply create_file_no_dentry; reflexivity|].
    unfold set_outcomes. cbn [outcomes sb atoms inodes last_ino dentries].
    repeat (split; [reflexivity|]). split; reflexivity.
Qed.

Lemma create_file_all_or_nothing_witness :
  (exists k',
     dummyfs_create_file 0 "counter" addr_counter
       (Kernel [true; false; true] 7 [] [Some (Dentry "/" None None)]
          blank_sb (Atomics 0 0))
     = Some (None, k') /\
     outcomes k' = [true] /\ children k' 0 = []) /\
  (exists k',
     dummyfs_create_file 0 "counter" addr_counter
       (Kernel [true; true; false] 7 [] [Some (Dentry "/" None None)]
          blank_sb (Atomics 0 0))
     = Some (Some 1%nat, k') /\
     outcomes k' = [false] /\ children k' 0 = [("counter"%string, 1%nat)]).
Proof.
  split.
  - destruct (create_file_all_or_nothing
                (Kernel [true; false; true] 7 [] [Some (Dentry "/" None None)]
                   blank_sb (Atomics 0 0))
                0 "counter" addr_counter false [true] eq_refl)
      as (res & k' & Hrun & Ho & _ & _ & -> & _ & _ & Hch & _).
    exists k'. split; [exact Hrun|]. split; [exact Ho|]. apply Hch.
  - destruct (create_file_all_or_nothing
                (Kernel [true; true; false] 7 [] [Some (Dentry "/" None None)]
                   blank_sb (Atomics 0 0))
                0 "counter" addr_counter true [false] eq_refl)
      as (res & k' & Hrun & Ho & _ & _ & -> & Hch & _).
    exists k'. split; [exact Hrun|]. split; [exact Ho|]. exact Hch.
Defined.

(** X11: [dummyfs_create_dir] does all or nothing.  When the allocation
    of its dentry or of its inode fails it returns NULL and no lookup and no
    inode has changed (the dentry taken before a failed inode allocation is
    given back); otherwise it returns the new dentry, which is then the last
    child of [dir] under the name given and leads to a directory of mode
    0755 served by libfs, without counter, while the children of every other
    dentry are as before. *)
Theorem create_dir_all_or_nothing k dir name ok rest :
  node_allocated (outcomes k) = (ok, rest) ->
  exists res k',
    dummyfs_create_dir dir name k = Some (res, k') /\
    outcomes k' = rest /\ sb k' = sb k /\ atoms k' = atoms k /\
    if ok
    then
      res = Some (length (dentries k)) /\
      children k' dir = children k dir ++ [(name, length (dentries k))] /\
      (forall d, d <> dir -> children k' d = children k d) /\
      exists x,
        node_at k' (length (dentries k)) = Some x /\ directory x
    else
      res = None /\ inodes k' = inodes k /\ last_ino k' = last_ino k /\
      (forall d, children k' d = children k d) /\
      (forall d, node_at k' d = node_at k d).
Proof.
  destruct k as [o n l d s a]. cbn [outcomes sb atoms dentries inodes last_ino].
  intros Halloc.
  assert (Hbuilt : hd true o = true -> hd true (tl o) = true ->
                   rest = tl (tl o) -> ok = true ->
                   exists res k',
                     dummyfs_create_dir dir name (Kernel o n l d s a)
                     = Some (res, k') /\
                     outcomes k' = rest /\ sb k' = s /\ atoms k' = a /\
                     res = Some (length d) /\
                     children k' dir =
                       children (Kernel o n l d s a) dir ++ [(name, length d)] /\
                     (forall d', d' <> dir ->
                        children k' d' = children (Kernel o n l d s a) d') /\
                     exists x,
                       node_at k' (length d) = Some x /\ directory x).
  { intros H1 H2 -> ->. do 2 eexists.
    split; [apply create_dir_built; assumption|].
    cbn [outcomes sb atoms].
    do 4 (split; [reflexivity|]). split; [|split].
    - rewrite (children_add_child o n l), Nat.eqb_refl. reflexivity.
    - intros d' Hd'. rewrite (children_add_child o n l).
      destruct (Nat.eqb_spec dir d'); [congruence|]. apply app_nil_r.
    - eexists. split.
      + unfold node_at. cbn [dentries inodes].
        rewrite !nth_error_app_last. reflexivity.
      + repeat split; vm_compute; reflexivity. }
  destruct o as [|[|] [|[|] o]]; cbn in Halloc;
    injection Halloc as <- <-;
    try (destruct Hbuilt as (res & k' & Hrun & Ho & Hs & Ha & Hrest);
         try reflexivity;
         exists res, k'; repeat (split; [assumption|]); exact Hrest).
  - do 2 eexists. split; [apply create_dir_no_inode|].
    cbn [outcomes sb atoms inodes last_ino].
    repeat (split; [reflexivity|]). split.
    + intros d'. apply children_freed_slot.
    + intros d'. apply node_at_freed_slot.
  - do 2 eexists. split; [apply create_dir_no_dentry; reflexivity|].
    unfold set_outcomes. cbn [outcomes sb atoms inodes last_ino dentries].
    repeat (split; [reflexivity|]). split; reflexivity.
  - do 2 eexists. split; [apply create_dir_no_dentry; reflexivity|].
    unfold set_outcomes. cbn [outcomes sb atoms inodes last_ino dentries].
    repeat (split; [reflexivity|]). split; reflexivity.
  - do 2 eexists. split; [apply create_dir_no_dentry; reflexivity|].
    unfold set_outcomes. cbn [outcomes sb atoms inodes last_ino dentries].
    repeat (split; [reflexivity|]). split; reflexivity.
Qed.

Lemma create_dir_all_or_nothing_witness :
  exists k',
    dummyfs_create_dir 0 "subdir"
      (Kernel [] 7 [] [Some (Dentry "/" None None)] blank_sb (Atomics 0 0))
    = Some (Some 1%nat, k') /\
    children k' 0 = [("subdir"%string, 1%nat)].
Proof.
  destruct (create_dir_all_or_nothing
              (Kernel [] 7 [] [Some (Dentry "/" None None)] blank_sb
                 (Atomics 0 0))
              0 "subdir" true [] eq_refl)
    as (res & k' & Hrun & _ & _ & _ & -> & Hch & _).
  exists k'. split; [exact Hrun|exact Hch].
Defined.

(** X12: the counters are objects of the module, not of the mount: every
    mount that gets its root sets both to 0 whatever they held, also when the
    file that would show one of them could not be created. *)
Theorem mount_resets_counters rest ino m :
  exists k',
    dfs_fill_super (fresh_kernel (true :: true :: rest) ino m) = Some (0, k') /\
    atomic_read (atoms k') addr_counter = 0 /\
    atomic_read (atoms k') addr_subcounter = 0.
Proof.
  destruct (mount_cases rest ino m) as (k' & Hrun & Hatoms & _).
  exists k'. rewrite Hatoms. repeat split. exact Hrun.
Qed.

(** X13: which nodes a mount publishes is decided by the allocations below
    the root, node by node: [counter] and [subdir] are there when their own
    dentry and inode were allocated, whatever happened to the other;
    [subcounter] is there when [subdir] is and its own two allocations
    succeeded; and the tree holds nothing else. *)
Theorem mount_publishes_what_was_allocated rest ino m :
  exists k',
    dfs_fill_super (fresh_kernel (true :: true :: rest) ino m) = Some (0, k') /\
    published_paths k' = expected_paths rest.
Proof.
  destruct (mount_cases rest ino m) as (k' & Hrun & _ & Hpaths & _).
  exists k'. split; assumption.
Qed.

Lemma resolve_in_table k path x :
  resolve k path = Some x -> In (Some x) (inodes k).
Proof.
  unfold resolve, node_at.
  destruct (s_root (sb k)) as [root|]; [|discriminate].
  destruct (walk k root path) as [d|]; [|discriminate].
  destruct (nth_error (dentries k) d) as [[[name parent [i|]]|]|];
    try discriminate.
  destruct (nth_error (inodes k) i) as [[y|]|] eqn:E; try discriminate.
  intros H. injection H as <-. exact (nth_error_In _ _ E).
Qed.

(** X14: whatever path of a mounted tree resolves, the inode found is
    either a directory served by libfs, without cell, or a regular file
    served by the handlers of this file and bound to a cell: [dfs_open] on it
    gives a file that reads and writes can use, at any position and for any
    count, without meeting a NULL [private_data]. *)
Theorem published_files_are_bound rest ino m :
  exists k',
    dfs_fill_super (fresh_kernel (true :: true :: rest) ino m) = Some (0, k') /\
    forall path x,
      resolve k' path = Some x ->
      (i_fop x = Some simple_dir_operations /\
       S_ISDIR (i_mode x) = true /\ i_private x = None)
      \/
      (i_fop x = Some dummyfs_file_ops /\ S_ISREG (i_mode x) = true /\
       forall fp buf count offset mm,
         0 <= offset -> 0 <= count ->
         fst (dfs_open x fp) = 0 /\
         (exists r,
            dfs_read_file (snd (dfs_open x fp)) buf count offset mm = Some r) /\
         (exists w,
            dfs_write_file (snd (dfs_open x fp)) buf count offset mm = Some w)).
Proof.
  destruct (mount_cases rest ino m) as (k' & Hrun & _ & _ & Hcons & _).
  exists k'. split; [exact Hrun|].
  intros path x Hx. apply resolve_in_table in Hx.
  unfold inodes_consistent in Hcons. rewrite forallb_forall in Hcons.
  specialize (Hcons _ Hx). cbv beta iota in Hcons.
  unfold inode_consistent in Hcons.
  destruct (i_fop x) as [[|]|] eqn:Hfop; try discriminate Hcons;
    destruct (i_private x) as [p|] eqn:Hp; try discriminate Hcons.
  - left. repeat split; assumption.
  - right. split; [reflexivity|]. split; [exact Hcons|].
    intros fp buf count offset mm Hoff Hcount.
    assert (Hbound : private_data (snd (dfs_open x fp)) = Some p)
      by (simpl; exact Hp).
    split; [reflexivity|]. split.
    + destruct (read_total _ p buf count offset mm Hbound Hoff Hcount)
        as (r & Hr & _). eauto.
    + destruct (write_total _ p buf count offset mm Hbound Hcount)
        as (w & Hw & _). eauto.
Qed.

Lemma published_files_are_bound_witness :
  exists k' x r,
    dfs_fill_super (fresh_kernel [true; true; false] 0 (Atomics 0 0))
    = Some (0, k') /\
    resolve k' ["subdir"; "subcounter"]%string = Some x /\
    dfs_read_file (snd (dfs_open x (File None))) (repeat NUL 4) 4 0 (atoms k')
    = Some r.
Proof.
  destruct (published_files_are_bound [false] 0 (Atomics 0 0))
    as (k' & Hrun & Hall).
  assert (Hx : exists x, resolve k' ["subdir"; "subcounter"]%string = Some x
                         /\ i_fop x = Some dummyfs_file_ops).
  { vm_compute in Hrun. injection Hrun as <-.
    eexists. split; vm_compute; reflexivity. }
  destruct Hx as (x & Hx & Hfop).
  destruct (Hall _ x Hx) as [(Hdir & _)|(_ & _ & Huse)]; [congruence|].
  destruct (Huse (File None) (repeat NUL 4) 4 0 (atoms k'))
    as (_ & (r & Hr) & _); [lia | lia |].
  exists k', x, r. repeat split; assumption.
Defined.

Lemma indexed_In {A : Type} (l : list A) (i : nat) (x : A) :
  nth_error l i = Some x -> In (i, x) (indexed l).
Proof.
  unfold indexed. change i with (0 + i)%nat at 2. generalize 0%nat as s.
  revert i. induction l as [|a l IH]; intros i s H.
  - destruct i; discriminate H.
  - destruct i as [|i]; simpl in *.
    + injection H as ->. left. f_equal. lia.
    + right. replace (s + S i)%nat with (S s + i)%nat by lia. now apply IH.
Qed.

(** X15: the tables a mount leaves are those of a tree, whichever
    allocations below the root fail: every live dentry with a parent hangs
    below a live directory, every live inode is the inode of exactly one live
    dentry (none is leaked, none is shared), and the names below one dentry
    differ. *)
Theorem mount_leaves_a_tree rest ino m :
  exists k',
    dfs_fill_super (fresh_kernel (true :: true :: rest) ino m) = Some (0, k') /\
    tree_ok k' = true /\
    (forall d name parent i,
       nth_error (dentries k') d = Some (Some (Dentry name (Some parent) i)) ->
       is_directory k' parent = true) /\
    (forall i x,
       nth_error (inodes k') i = Some (Some x) -> references k' i = 1%nat) /\
    (forall d x,
       nth_error (dentries k') d = Some x ->
       distinct (map fst (children k' d)) = true).
Proof.
  destruct (mount_cases rest ino m) as (k' & Hrun & _ & _ & _ & Hok & _).
  exists k'. split; [exact Hrun|]. split; [exact Hok|].
  unfold tree_ok in Hok. rewrite !andb_true_iff, !forallb_forall in Hok.
  destruct Hok as [[Hplaced Howned] Hnames].
  split; [|split].
  - intros d name parent i Hd.
    exact (Hplaced _ (indexed_In _ _ _ Hd)).
  - intros i x Hi. apply Nat.eqb_eq.
    exact (Howned _ (indexed_In _ _ _ Hi)).
  - intros d x Hd. exact (Hnames _ (indexed_In _ _ _ Hd)).
Qed.

(** X16: the test of [root] in [dfs_fill_super] comes after its first use:
    when the root inode cannot be allocated, [inode_init_owner] stores
    through the NULL pointer, and the mount does not come back with
    [-ENOMEM]. *)
Theorem root_inode_failure_is_not_reported k rest :
  outcomes k = false :: rest -> dfs_fill_super k = None.
Proof.
  intros E. unfold dfs_fill_super.
  kstep ltac:(reflexivity).
  kstep ltac:(apply make_inode_fails; exact E).
  reflexivity.
Qed.

Lemma root_inode_failure_is_not_reported_witness :
  dfs_fill_super (fresh_kernel [false; true; true] 0 (Atomics 0 0)) = None.
Proof.
  apply (root_inode_failure_is_not_reported
           (fresh_kernel [false; true; true] 0 (Atomics 0 0)) [true; true]).
  reflexivity.
Defined.

